(** * Movie recommendation service: identifier mappings and LightGCN scoring

    A shallow embedding of [recommend/generate_mapping.py],
    [recommend/manage_mapping.py] and [recommend/app.py].

    - Python dictionaries are stdpp [gmap]s, Python [int]s are [Z].
    - The pickled mapping file and its [.bak] copy are an explicit [Files]
      state that every operation threads through.
    - [print] is a list of messages returned next to the new state.
    - A raised exception is a value of [exn]. *)

From Stdlib Require Import ZArith String List.
From Stdlib Require OrderedTypeEx.
From stdpp Require Import base option list gmap strings fin_maps sorting.

Local Open Scope Z_scope.

(* stdpp's solvers clear hypotheses that may already be gone *)
#[local] Set Warnings "-clear-no-such-hyp".

(** ** Exceptions and printed messages *)

Inductive exn :=
| FileNotFoundError
| KeyError (key : string)
| ValueError
| ZeroDivisionError
| IndexError
| TypeError
| RuntimeError
| AttributeError
| IntegerOverflow.

(** What the scripts print, one constructor per [print] call of the tool. *)
Inductive msg :=
| Saved
| AlreadyExists (mongo_id : string) (index : Z)
| IndexAboveMax (user_index max_index : Z)
| Added (mongo_id : string) (index : Z)
| SkippedExists (mongo_id : string)
| Found (mongo_id : string) (index : Z)
| NotFound (mongo_id : string).

(** ** Generic list helpers *)

(** [enumerate(l)] with the counter starting at [i]. *)
Fixpoint enumerate_from {A} (i : Z) (l : list A) : list (Z * A) :=
  match l with
  | [] => []
  | x :: l' => (i, x) :: enumerate_from (i + 1) l'
  end.

Definition enumerate {A} (l : list A) : list (Z * A) := enumerate_from 0 l.

(** A stable sort: [x] goes in front of the first element that is not
    smaller than it, and the list is consumed from the right, so elements
    with equal keys keep their relative order (Python's [sorted]). *)
Fixpoint insert_sorted {A} (leb : A → A → bool) (x : A) (l : list A) : list A :=
  match l with
  | [] => [x]
  | y :: l' => if leb x y then x :: y :: l' else y :: insert_sorted leb x l'
  end.

Definition stable_sort {A} (leb : A → A → bool) (l : list A) : list A :=
  foldr (insert_sorted leb) [] l.

(** [max(l)]: [None] stands for the [ValueError] on an empty sequence. *)
Fixpoint py_max (l : list Z) : option Z :=
  match l with
  | [] => None
  | x :: l' =>
      match py_max l' with
      | None => Some x
      | Some y => Some (Z.max x y)
      end
  end.

(** ** The pickled mapping file *)

Module Pickle.

(** The dictionary stored in [id_mappings.pkl].  A field is [None] when
    the key is missing from the dictionary, so that subscripting it
    raises [KeyError]. *)
Record mappings := Mappings {
  user_mapping : option (gmap string Z);
  movie_mapping : option (gmap string Z);
  reverse_movie_mapping : option (gmap Z string)
}.

Definition set_user_mapping (um : gmap string Z) (m : mappings) : mappings :=
  Mappings (Some um) (movie_mapping m) (reverse_movie_mapping m).

End Pickle.

(** The two files the tools touch: [MAPPING_FILE] and [MAPPING_FILE + '.bak'].
    [None] is a file that does not exist. *)
Record Files := MkFiles {
  mapping_file : option Pickle.mappings;
  backup_file : option Pickle.mappings
}.

(** ** generate_mapping.py *)

Module GenerateMapping.

(** Values returned by [db.interactions.distinct]: Mongo ObjectIds or
    plain strings. *)
Inductive db_value :=
| ObjectId (hex : string)
| StrValue (s : string).

Definition str (v : db_value) : string :=
  match v with
  | ObjectId hex => hex
  | StrValue s => s
  end.

(** [sorted(values, key=str)] *)
Definition sorted_by_str (values : list db_value) : list db_value :=
  stable_sort (λ a b, String.leb (str a) (str b)) values.

(** The loop of lines 39-41. *)
Definition build_user_mapping (unique_users : list db_value) : gmap string Z :=
  fold_left (λ um '(idx, user_id), <[str user_id := idx]> um)
            (enumerate (sorted_by_str unique_users)) ∅.

(** One iteration of the loop of lines 45-47. *)
Definition movie_step (acc : gmap string Z * gmap Z string) (p : Z * db_value)
  : gmap string Z * gmap Z string :=
  let '(idx, movie_id) := p in
  (<[str movie_id := idx]> acc.1, <[idx := str movie_id]> acc.2).

Definition build_movie_mappings (unique_movies : list db_value)
  : gmap string Z * gmap Z string :=
  fold_left movie_step (enumerate (sorted_by_str unique_movies)) (∅, ∅).

(** [generate_mappings()], given the two [distinct] query results.  It
    overwrites the mapping file without taking a backup.  (The JSON
    sample written afterwards for debugging is not part of the state.) *)
Definition generate_mappings (unique_users unique_movies : list db_value)
    (fs : Files) : Files :=
  let user_mapping := build_user_mapping unique_users in
  let '(movie_mapping, reverse_movie_mapping) :=
    build_movie_mappings unique_movies in
  MkFiles (Some (Pickle.Mappings (Some user_mapping) (Some movie_mapping)
                                 (Some reverse_movie_mapping)))
          (backup_file fs).

End GenerateMapping.

(** ** manage_mapping.py *)

Module ManageMapping.

(** What a command leaves behind: the files, what it printed, and the
    exception it died with, if any. *)
Record run := Run {
  files : Files;
  printed : list msg;
  raised : option exn
}.

(** [load_mappings()] *)
Definition load_mappings (fs : Files) : exn + Pickle.mappings :=
  match mapping_file fs with
  | None => inl FileNotFoundError
  | Some m => inr m
  end.

(** [save_mappings(mappings)]: copy the current file to the backup if it
    exists, then overwrite it. *)
Definition save_mappings (m : Pickle.mappings) (fs : Files) : Files * list msg :=
  let backup :=
    match mapping_file fs with
    | Some old => Some old
    | None => backup_file fs
    end in
  (MkFiles (Some m) backup, [Saved]).

(** [max(mappings['user_mapping'].values())] *)
Definition max_index (um : gmap string Z) : option Z :=
  py_max (snd <$> map_to_list um).

(** [add_user(mongo_id, user_index)] *)
Definition add_user (mongo_id : string) (user_index : Z) (fs : Files) : run :=
  match load_mappings fs with
  | inl e => Run fs [] (Some e)
  | inr m =>
      match Pickle.user_mapping m with
      | None => Run fs [] (Some (KeyError "user_mapping"))
      | Some um =>
          match um !! mongo_id with
          | Some i => Run fs [AlreadyExists mongo_id i] None
          | None =>
              match max_index um with
              | None => Run fs [] (Some ValueError)
              | Some mx =>
                  let '(user_index', warn) :=
                    if mx <? user_index
                    then (mx, [IndexAboveMax user_index mx])
                    else (user_index, []) in
                  let m' := Pickle.set_user_mapping (<[mongo_id := user_index']> um) m in
                  let '(fs', out) := save_mappings m' fs in
                  Run fs' (warn ++ out ++ [Added mongo_id user_index']) None
              end
          end
      end
  end.

(** The loop of [add_bulk]: [pending] is what is left of
    [enumerate(mongo_ids)].  The dictionary is mutated in place, its
    length is read afresh at every insertion, and a modulo by zero stops
    the loop. *)
Fixpoint add_bulk_loop (start_index : Z) (pending : list (Z * string))
    (um : gmap string Z) (out : list msg)
  : gmap string Z * list msg * option exn :=
  match pending with
  | [] => (um, out, None)
  | (i, mongo_id) :: rest =>
      match um !! mongo_id with
      | None =>
          let n := Z.of_nat (size um) in
          if n =? 0 then (um, out, Some ZeroDivisionError)
          else
            let idx := (start_index + i) mod n in
            add_bulk_loop start_index rest (<[mongo_id := idx]> um)
                          (out ++ [Added mongo_id idx])
      | Some _ =>
          add_bulk_loop start_index rest um (out ++ [SkippedExists mongo_id])
      end
  end.

(** [add_bulk(mongo_ids, start_index)] *)
Definition add_bulk (mongo_ids : list string) (start_index : Z) (fs : Files) : run :=
  match load_mappings fs with
  | inl e => Run fs [] (Some e)
  | inr m =>
      match Pickle.user_mapping m with
      | None =>
          match mongo_ids with
          | [] =>
              let '(fs', out) := save_mappings m fs in Run fs' out None
          | _ :: _ => Run fs [] (Some (KeyError "user_mapping"))
          end
      | Some um =>
          match add_bulk_loop start_index (enumerate mongo_ids) um [] with
          | (_, out, Some e) => Run fs out (Some e)
          | (um', out, None) =>
              let '(fs', out') := save_mappings (Pickle.set_user_mapping um' m) fs in
              Run fs' (out ++ out') None
          end
      end
  end.

(** [check_user(mongo_id)] *)
Definition check_user (mongo_id : string) (fs : Files) : run :=
  match load_mappings fs with
  | inl e => Run fs [] (Some e)
  | inr m =>
      match Pickle.user_mapping m with
      | None => Run fs [] (Some (KeyError "user_mapping"))
      | Some um =>
          match um !! mongo_id with
          | Some i => Run fs [Found mongo_id i] None
          | None => Run fs [NotFound mongo_id] None
          end
      end
  end.

End ManageMapping.

(** ** app.py *)

(** *** The numeric library

    The service computes on float tensors through torch and numpy.  The
    numeric kernels are an interface: a scalar type with the order numpy
    sorts by, the arithmetic of the dot product, and the library calls
    whose results the source does not determine (the sparse product, the
    layer aggregations, the random initialisation of an embedding table,
    and the order [np.argsort] gives to equal scores). *)
Class Torch := {
  scalar : Type;
  graph : Type;
  s_zero : scalar;
  s_add : scalar → scalar → scalar;
  s_mul : scalar → scalar → scalar;
  s_leb : scalar → scalar → bool;
  (** [torch.sparse.mm(Graph, all_emb)] *)
  sparse_mm : graph → list (list scalar) → exn + list (list scalar);
  (** [torch.mean(torch.stack(embs, dim=1), dim=1)] *)
  mean_layers : list (list (list scalar)) → exn + list (list scalar);
  (** [torch.sum(embs * softmax(layer_attention).view(1, -1, 1), dim=1)] *)
  attention_layers :
    list scalar → list (list (list scalar)) → exn + list (list scalar);
  (** the values [nn.Embedding(rows, dim)] is initialised with *)
  randn : nat → nat → list (list scalar);
  (** [torch.ones(n) / n] *)
  uniform_weights : nat → list scalar;
  (** [np.argsort(scores)] *)
  argsort : list scalar → list nat
}.

(** What numpy documents of [argsort] on scores without NaN: the result
    is a permutation of the positions that lists the scores in ascending
    order.  Nothing is said about the order of equal scores (the default
    kind is not stable). *)
Class TorchLaws (T : Torch) := {
  s_leb_total : ∀ x y : scalar, s_leb x y = true ∨ s_leb y x = true;
  s_leb_trans : ∀ x y z : scalar,
    s_leb x y = true → s_leb y z = true → s_leb x z = true;
  argsort_perm : ∀ scores : list scalar,
    argsort scores ≡ₚ seq 0 (length scores);
  argsort_ascending : ∀ (scores : list scalar) (i j : nat) (p q : nat) (x y : scalar),
    (i < j)%nat →
    argsort scores !! i = Some p → argsort scores !! j = Some q →
    scores !! p = Some x → scores !! q = Some y →
    s_leb x y = true
}.

(** Python's [l[:k]] for any integer [k]. *)
Definition slice_to {A} (k : Z) (l : list A) : list A :=
  if 0 <=? k then take (Z.to_nat k) l
  else take (Z.to_nat (Z.of_nat (length l) + k)) l.

Module App.
Section App.
Context {T : Torch}.

Definition vector := list scalar.
(** A 2-D tensor as the list of its rows. *)
Definition tensor := list vector.

(** [t.shape == (rows, cols)] *)
Definition has_shape (rows cols : nat) (t : tensor) : bool :=
  (length t =? rows)%nat && forallb (λ r, (length r =? cols)%nat) t.

(** The Python integers torch can unpack into a signed 64-bit index. *)
Definition fits_int64 (i : Z) : bool := (- 2 ^ 63 <=? i) && (i <? 2 ^ 63).

(** [t[i]] for a Python integer [i]: negative indices count from the end.
    An index outside the table is an [IndexError] when it fits in 64 bits
    and torch's overflow error when it does not.  (A table has fewer than
    [2 ^ 63] rows, so an index inside the table always fits.) *)
Definition tensor_row (t : tensor) (i : Z) : exn + vector :=
  let n := Z.of_nat (length t) in
  let j := if i <? 0 then i + n else i in
  if (0 <=? j) && (j <? n) then
    match t !! Z.to_nat j with
    | Some r => inr r
    | None => inl IndexError
    end
  else if fits_int64 i then inl IndexError
  else inl IntegerOverflow.

Definition dot (u v : vector) : scalar :=
  foldr s_add s_zero (zip_with s_mul u v).

(** [torch.matmul(user_emb, all_item_embs.T)]: one inner product per
    item row; the inner dimensions have to agree. *)
Definition matmul (user_emb : vector) (all_item_embs : tensor) : exn + list scalar :=
  if forallb (λ r, (length r =? length user_emb)%nat) all_item_embs
  then inr (dot user_emb <$> all_item_embs)
  else inl RuntimeError.

(** **** The model class *)

Record ImprovedLightGCN := Model {
  num_users : nat;
  num_items : nat;
  embedding_dim : nat;
  n_layers : nat;
  reg_lambda : scalar;
  dropout : scalar;
  use_layer_attention : bool;
  user_embedding : tensor;
  item_embedding : tensor;
  (** the attribute exists only when [use_layer_attention] was set *)
  layer_attention : option (list scalar);
  Graph : option graph;
  cached_users : option tensor;
  cached_items : option tensor;
  _cache_valid : bool
}.

(** Keyword arguments that [__init__] accepts: every key is there (the
    defaults filled in), no other key is, and the sizes are natural
    numbers.  A [model_config] that the constructor refuses is the
    checkpoint [RejectedConfigDict] below. *)
Record config := Config {
  cfg_num_users : nat;
  cfg_num_items : nat;
  cfg_embedding_dim : nat;
  cfg_n_layers : nat;
  cfg_reg_lambda : scalar;
  cfg_dropout : scalar;
  cfg_use_layer_attention : bool
}.

(** The constructor on keyword arguments it accepts. *)
Definition init (c : config) : ImprovedLightGCN :=
  {| num_users := cfg_num_users c;
     num_items := cfg_num_items c;
     embedding_dim := cfg_embedding_dim c;
     n_layers := cfg_n_layers c;
     reg_lambda := cfg_reg_lambda c;
     dropout := cfg_dropout c;
     use_layer_attention := cfg_use_layer_attention c;
     user_embedding := randn (cfg_num_users c) (cfg_embedding_dim c);
     item_embedding := randn (cfg_num_items c) (cfg_embedding_dim c);
     layer_attention :=
       if cfg_use_layer_attention c
       then Some (uniform_weights (cfg_n_layers c + 1))
       else None;
     Graph := None;
     cached_users := None;
     cached_items := None;
     _cache_valid := false |}.

(** The layers collected by the loop of [computer]: the input followed
    by [layers] successive products with the graph. *)
Fixpoint propagate (g : graph) (layers : nat) (all_emb : tensor)
  : exn + list tensor :=
  match layers with
  | O => inr [all_emb]
  | S k =>
      match sparse_mm g all_emb with
      | inl e => inl e
      | inr next =>
          match propagate g k next with
          | inl e => inl e
          | inr embs => inr (all_emb :: embs)
          end
      end
  end.

(** [torch.split(final_emb, [num_users, num_items])] *)
Definition split (final_emb : tensor) (nu ni : nat) : exn + (tensor * tensor) :=
  if (length final_emb =? nu + ni)%nat
  then inr (take nu final_emb, drop nu final_emb)
  else inl RuntimeError.

(** [ImprovedLightGCN.computer] *)
Definition computer (self : ImprovedLightGCN) : exn + (tensor * tensor) :=
  match Graph self with
  | None => inr (user_embedding self, item_embedding self)
  | Some g =>
      let users_emb := user_embedding self in
      let items_emb := item_embedding self in
      let all_emb := users_emb ++ items_emb in
      match propagate g (n_layers self) all_emb with
      | inl e => inl e
      | inr embs =>
          let final_emb :=
            if use_layer_attention self then
              match layer_attention self with
              | Some w => attention_layers w embs
              | None => inl AttributeError
              end
            else mean_layers embs in
          match final_emb with
          | inl e => inl e
          | inr final_emb => split final_emb (num_users self) (num_items self)
          end
      end
  end.

Definition set_cache (cu ci : option tensor) (valid : bool)
    (self : ImprovedLightGCN) : ImprovedLightGCN :=
  {| num_users := num_users self;
     num_items := num_items self;
     embedding_dim := embedding_dim self;
     n_layers := n_layers self;
     reg_lambda := reg_lambda self;
     dropout := dropout self;
     use_layer_attention := use_layer_attention self;
     user_embedding := user_embedding self;
     item_embedding := item_embedding self;
     layer_attention := layer_attention self;
     Graph := Graph self;
     cached_users := cu;
     cached_items := ci;
     _cache_valid := valid |}.

(** [ImprovedLightGCN.clear_cache] *)
Definition clear_cache (self : ImprovedLightGCN) : ImprovedLightGCN :=
  set_cache None None false self.

(** **** Checkpoints *)

(** [checkpoint['model_state_dict']]: a missing entry is [None]. *)
Record state_dict := StateDict {
  sd_user_embedding : option tensor;
  sd_item_embedding : option tensor;
  sd_layer_attention : option (list scalar)
}.

(** One parameter of [load_state_dict]: it is copied when the entry is
    there with the right shape, and reported otherwise. *)
Definition load_param {A} (shape_ok : A → bool) (current : A) (entry : option A)
  : A * bool :=
  match entry with
  | Some v => if shape_ok v then (v, true) else (current, false)
  | None => (current, false)
  end.

(** [model.load_state_dict(sd)] (strict): every parameter whose entry
    fits is copied in place; a missing, unexpected or ill-shaped entry
    makes the call raise once all parameters have been visited. *)
Definition load_state_dict (self : ImprovedLightGCN) (sd : state_dict)
  : ImprovedLightGCN * option exn :=
  let '(ue, ok_u) :=
    load_param (has_shape (num_users self) (embedding_dim self))
               (user_embedding self) (sd_user_embedding sd) in
  let '(ie, ok_i) :=
    load_param (has_shape (num_items self) (embedding_dim self))
               (item_embedding self) (sd_item_embedding sd) in
  let '(la, ok_a) :=
    match layer_attention self with
    | Some w =>
        let '(w', ok) :=
          load_param (λ v : list scalar, (length v =? n_layers self + 1)%nat)
                     w (sd_layer_attention sd) in
        (Some w', ok)
    | None =>
        (None, match sd_layer_attention sd with Some _ => false | None => true end)
    end in
  ({| num_users := num_users self;
      num_items := num_items self;
      embedding_dim := embedding_dim self;
      n_layers := n_layers self;
      reg_lambda := reg_lambda self;
      dropout := dropout self;
      use_layer_attention := use_layer_attention self;
      user_embedding := ue;
      item_embedding := ie;
      layer_attention := la;
      Graph := Graph self;
      cached_users := cached_users self;
      cached_items := cached_items self;
      _cache_valid := _cache_valid self |},
   if ok_u && ok_i && ok_a then None else Some RuntimeError).

(** What [torch.load] can return from the model file: a dictionary with
    a [model_state_dict] entry, whose [model_config] entry is missing
    ([None]), accepted by the constructor, or refused by it with the
    exception [raised] (a missing or unexpected keyword, a negative size);
    a pickled model; or any other object. *)
Inductive checkpoint :=
| CheckpointDict (model_config : option config) (model_state_dict : state_dict)
| WholeModel (m : ImprovedLightGCN)
| OtherObject
| RejectedConfigDict (raised : exn) (model_state_dict : state_dict).

(** The value of the global [model] once it is not [None]. *)
Inductive py_object :=
| ModelObject (m : ImprovedLightGCN)
| NotAModel.

(** **** Global state *)

Record globals := Globals {
  model : option py_object;
  user_mapping : gmap string Z;
  movie_mapping : gmap string Z;
  reverse_movie_mapping : gmap Z string
}.

Definition set_model (o : py_object) (st : globals) : globals :=
  Globals (Some o) (user_mapping st) (movie_mapping st) (reverse_movie_mapping st).

(** Lines 163-169 of [load_model]: the three tables are assigned one
    after the other, each after its own subscript. *)
Definition load_mapping_tables (fs : Files) (st : globals) : globals * option exn :=
  match mapping_file fs with
  | None => (st, Some FileNotFoundError)
  | Some mappings =>
      match Pickle.user_mapping mappings with
      | None => (st, Some (KeyError "user_mapping"))
      | Some um =>
          let st1 := Globals (model st) um (movie_mapping st)
                             (reverse_movie_mapping st) in
          match Pickle.movie_mapping mappings with
          | None => (st1, Some (KeyError "movie_mapping"))
          | Some mm =>
              let st2 := Globals (model st1) (user_mapping st1) mm
                                 (reverse_movie_mapping st1) in
              match Pickle.reverse_movie_mapping mappings with
              | None => (st2, Some (KeyError "reverse_movie_mapping"))
              | Some rm =>
                  (Globals (model st2) (user_mapping st2) (movie_mapping st2) rm,
                   None)
              end
          end
      end
  end.

(** [load_model()]: [model_file] is what is stored at [MODEL_PATH]
    ([None] when it cannot be read), [fs] holds the mapping file.  The
    result is the globals as the call leaves them and the exception it
    re-raises, if any.  The global [model] is assigned as soon as the
    constructor has returned (line 149) or the checkpoint is taken as the
    model (line 152); what raises before that leaves it alone. *)
Definition load_model (model_file : option checkpoint) (fs : Files)
    (st : globals) : globals * option exn :=
  match model_file with
  | None => (st, Some FileNotFoundError)
  | Some (CheckpointDict None _) => (st, Some (KeyError "model_config"))
  | Some (CheckpointDict (Some c) sd) =>
      let '(m, err) := load_state_dict (init c) sd in
      match err with
      | Some e => (set_model (ModelObject m) st, Some e)
      | None => load_mapping_tables fs (set_model (ModelObject (clear_cache m)) st)
      end
  | Some (WholeModel m) =>
      load_mapping_tables fs (set_model (ModelObject (clear_cache m)) st)
  | Some OtherObject => (set_model NotAModel st, Some AttributeError)
  | Some (RejectedConfigDict e _) => (st, Some e)
  end.

(** **** Requests and responses *)

Record RecommendationRequest := Request {
  req_user_id : string;
  top_k : Z
}.

Record recommendation := Rec {
  movieId : string;
  score : scalar
}.

Record RecommendationResponse := Response {
  user_id : string;
  recommendations : list recommendation
}.

Inductive detail :=
| ModelNotLoaded
| ErrorGenerating (e : exn)
| ErrorReloading (e : exn).

Record HTTPException := HTTPError {
  status_code : Z;
  http_detail : detail
}.

(** [get_popular_movies(top_k)] *)
Definition get_popular_movies (top_k : Z) : RecommendationResponse :=
  Response "unknown" [].

(** Lines 227-229: fill the cache when it is not valid. *)
Definition ensure_cache (m : ImprovedLightGCN) : ImprovedLightGCN * option exn :=
  if _cache_valid m then (m, None)
  else
    match computer m with
    | inl e => (m, Some e)
    | inr (users, items) => (set_cache (Some users) (Some items) true m, None)
    end.

(** Lines 232-239: the scores of all items for the user at [user_idx]. *)
Definition user_scores (m : ImprovedLightGCN) (user_idx : Z) : exn + list scalar :=
  match cached_users m with
  | None => inl TypeError
  | Some cu =>
      match tensor_row cu user_idx with
      | inl e => inl e
      | inr user_emb =>
          match cached_items m with
          | None => inl AttributeError
          | Some all_item_embs => matmul user_emb all_item_embs
          end
      end
  end.

(** Line 242: [np.argsort(scores)[::-1][:top_k]] *)
Definition top_indices (scores : list scalar) (k : Z) : list nat :=
  slice_to k (reverse (argsort scores)).

(** [if movie_id:] on the result of [dict.get] *)
Definition truthy (movie_id : option string) : bool :=
  match movie_id with
  | None => false
  | Some EmptyString => false
  | Some (String _ _) => true
  end.

(** Lines 245-252: the loop over [top_indices]. *)
Fixpoint convert (rmm : gmap Z string) (scores : list scalar) (idxs : list nat)
  : exn + list recommendation :=
  match idxs with
  | [] => inr []
  | idx :: rest =>
      let movie_id := rmm !! Z.of_nat idx in
      if truthy movie_id then
        match scores !! idx with
        | None => inl IndexError
        | Some s =>
            match convert rmm scores rest with
            | inl e => inl e
            | inr recs => inr (Rec (default EmptyString movie_id) s :: recs)
            end
        end
      else convert rmm scores rest
  end.

(** The body of the [try] block, lines 218-257, on a model object. *)
Definition recommend_for (m : ImprovedLightGCN) (rmm : gmap Z string)
    (user_idx k : Z) : (exn + list recommendation) * ImprovedLightGCN :=
  let '(m', err) := ensure_cache m in
  match err with
  | Some e => (inl e, m')
  | None =>
      match user_scores m' user_idx with
      | inl e => (inl e, m')
      | inr scores => (convert rmm scores (top_indices scores k), m')
      end
  end.

(** [get_recommendations(request)] *)
Definition get_recommendations (request : RecommendationRequest) (st : globals)
  : (HTTPException + RecommendationResponse) * globals :=
  match model st with
  | None => (inl (HTTPError 500 ModelNotLoaded), st)
  | Some obj =>
      let uid := req_user_id request in
      let k := top_k request in
      match user_mapping st !! uid with
      | None => (inr (get_popular_movies k), st)
      | Some user_idx =>
          match obj with
          | NotAModel => (inl (HTTPError 500 (ErrorGenerating AttributeError)), st)
          | ModelObject m =>
              let '(r, m') := recommend_for m (reverse_movie_mapping st) user_idx k in
              (match r with
               | inl e => inl (HTTPError 500 (ErrorGenerating e))
               | inr recs => inr (Response uid recs)
               end,
               set_model (ModelObject m') st)
          end
      end
  end.

(** [reload_model()] *)
Definition reload_model (model_file : option checkpoint) (fs : Files)
    (st : globals) : (HTTPException + unit) * globals :=
  match load_model model_file fs st with
  | (st', Some e) => (inl (HTTPError 500 (ErrorReloading e)), st')
  | (st', None) => (inr (), st')
  end.

(** **** The other endpoints *)

(** The globals as the module sets them, lines 38-41. *)
Definition initial_globals : globals := Globals None ∅ ∅ ∅.

(** [startup_event()]: the first [load_model] of the process. *)
Definition startup_event (model_file : option checkpoint) (fs : Files)
  : globals * option exn :=
  load_model model_file fs initial_globals.

(** [model is not None] *)
Definition model_is_loaded (st : globals) : bool :=
  match model st with
  | Some _ => true
  | None => false
  end.

Record status_page := StatusPage {
  service : string;
  status : string;
  model_loaded : bool;
  total_users : nat;
  total_movies : nat
}.

(** [root()] *)
Definition root (st : globals) : status_page :=
  StatusPage "Movie Recommendation API" "running" (model_is_loaded st)
             (size (user_mapping st)) (size (movie_mapping st)).

Record health := Health {
  health_status : string;
  health_model_loaded : bool
}.

(** [health_check()] *)
Definition health_check (st : globals) : health :=
  Health "healthy" (model_is_loaded st).

(** One value of the dictionary [batch_recommendations] returns: the
    recommendation list of the user, or the error caught for it. *)
Definition batch_entry (r : HTTPException + RecommendationResponse)
  : HTTPException + list recommendation :=
  match r with
  | inl e => inl e
  | inr rec => inr (recommendations rec)
  end.

(** The loop of [batch_recommendations]: the requests are served one
    after the other on the same globals. *)
Fixpoint batch_loop (user_ids : list string) (k : Z)
    (results : gmap string (HTTPException + list recommendation)) (st : globals)
  : gmap string (HTTPException + list recommendation) * globals :=
  match user_ids with
  | [] => (results, st)
  | uid :: rest =>
      let '(r, st') := get_recommendations (Request uid k) st in
      batch_loop rest k (<[uid := batch_entry r]> results) st'
  end.

(** [batch_recommendations(user_ids, top_k)] *)
Definition batch_recommendations (user_ids : list string) (k : Z) (st : globals)
  : gmap string (HTTPException + list recommendation) * globals :=
  batch_loop user_ids k ∅ st.

End App.
End App.

(** *** A reference instance of the numeric library

    Integer scalars, no propagation graph, and [argsort] as a stable
    sort of the positions by score.  It is used to run the service on
    concrete requests. *)

Definition argsort_by {A} (leb : A → A → bool) (scores : list A) : list nat :=
  (stable_sort (λ a b, leb a.1 b.1) (zip scores (seq 0 (length scores)))).*2.

#[export] Instance Z_torch : Torch := {|
  scalar := Z;
  graph := Empty_set;
  s_zero := 0;
  s_add := Z.add;
  s_mul := Z.mul;
  s_leb := Z.leb;
  sparse_mm := λ g _, match g with end;
  mean_layers := λ _, inl RuntimeError;
  attention_layers := λ _ _, inl RuntimeError;
  randn := λ rows dim, replicate rows (replicate dim 0);
  uniform_weights := λ n, replicate n 0;
  argsort := argsort_by Z.leb
|}.

(** * Vocabulary of the properties *)

(** [m] is the largest index of the user mapping. *)
Definition is_max_index (um : gmap string Z) (m : Z) : Prop :=
  (∃ k, um !! k = Some m) ∧ ∀ k v, um !! k = Some v → v <= m.

(** The user mapping a command leaves in the mapping file. *)
Definition stored_user_mapping (fs : Files) : option (gmap string Z) :=
  mapping_file fs ≫= Pickle.user_mapping.

(** Every pair of the movie mapping is answered by the reverse table. *)
Definition inverse_tables (mm : gmap string Z) (rm : gmap Z string) : Prop :=
  ∀ ext_id idx, mm !! ext_id = Some idx → rm !! idx = Some ext_id.

(** The files whose movie tables are present and inverse to each other. *)
Definition files_inverse (fs : Files) : Prop :=
  ∃ m mm rm,
    mapping_file fs = Some m ∧
    Pickle.movie_mapping m = Some mm ∧
    Pickle.reverse_movie_mapping m = Some rm ∧
    inverse_tables mm rm.


(** The entry the loop of [get_recommendations] appends for one index of
    [top_indices], if any. *)
Definition entry_of {T : Torch} (rmm : gmap Z string) (scores : list scalar)
    (idx : nat) : option App.recommendation :=
  match rmm !! Z.of_nat idx, scores !! idx with
  | Some (String a s), Some x => Some (App.Rec (String a s) x)
  | _, _ => None
  end.

(** Position [p] of the score array holds at most what position [q] holds. *)
Definition score_le {T : Torch} (scores : list scalar) (p q : nat) : Prop :=
  ∀ x y, scores !! p = Some x → scores !! q = Some y → s_leb x y = true.

(** No entry of the list has a smaller score than a later one. *)
Definition non_increasing {T : Torch} (recs : list App.recommendation) : Prop :=
  ∀ (i j : nat) r1 r2,
    (i < j)%nat → recs !! i = Some r1 → recs !! j = Some r2 →
    s_leb (App.score r2) (App.score r1) = true.

(** The list is strictly descending: every entry scores more than every
    later one. *)
Definition strictly_descending {T : Torch} (recs : list App.recommendation) : Prop :=
  ∀ (i j : nat) r1 r2,
    (i < j)%nat → recs !! i = Some r1 → recs !! j = Some r2 →
    s_leb (App.score r1) (App.score r2) = false.

(** * Sample data *)

(** The three new identifiers of the bulk scenario. *)
Definition scenario_ids : list string := ["a"; "b"; "c"].

(** A stored mapping with five users and two movies. *)
Definition five_users : gmap string Z :=
  list_to_map [("u0", 0); ("u1", 1); ("u2", 2); ("u3", 3); ("u4", 4)].

Definition five_users_mappings : Pickle.mappings :=
  Pickle.Mappings (Some five_users)
                  (Some (list_to_map [("m0", 0); ("m1", 1)]))
                  (Some (list_to_map [(0, "m0"); (1, "m1")])).

Definition five_users_files : Files := MkFiles (Some five_users_mappings) None.


(** One user and two items of dimension 4, no propagation graph. *)
Definition demo_model : App.ImprovedLightGCN :=
  {| App.num_users := 1;
     App.num_items := 2;
     App.embedding_dim := 4;
     App.n_layers := 3;
     App.reg_lambda := 0;
     App.dropout := 0;
     App.use_layer_attention := false;
     App.user_embedding := [[1; 0; 0; 0]];
     App.item_embedding := [[1; 0; 0; 0]; [0; 1; 0; 0]];
     App.layer_attention := None;
     App.Graph := None;
     App.cached_users := None;
     App.cached_items := None;
     App._cache_valid := false |}.

(** The same model after a retraining that changed the user's vector. *)
Definition retrained_model : App.ImprovedLightGCN :=
  {| App.num_users := 1;
     App.num_items := 2;
     App.embedding_dim := 4;
     App.n_layers := 3;
     App.reg_lambda := 0;
     App.dropout := 0;
     App.use_layer_attention := false;
     App.user_embedding := [[0; 1; 0; 0]];
     App.item_embedding := [[1; 0; 0; 0]; [0; 1; 0; 0]];
     App.layer_attention := None;
     App.Graph := None;
     App.cached_users := None;
     App.cached_items := None;
     App._cache_valid := false |}.

(** A model whose two items score the same for its user. *)
Definition tie_model : App.ImprovedLightGCN :=
  {| App.num_users := 1;
     App.num_items := 2;
     App.embedding_dim := 4;
     App.n_layers := 3;
     App.reg_lambda := 0;
     App.dropout := 0;
     App.use_layer_attention := false;
     App.user_embedding := [[1; 0; 0; 0]];
     App.item_embedding := [[1; 0; 0; 0]; [1; 0; 0; 0]];
     App.layer_attention := None;
     App.Graph := None;
     App.cached_users := None;
     App.cached_items := None;
     App._cache_valid := false |}.

Definition demo_reverse : gmap Z string := list_to_map [(0, "m0"); (1, "m1")].

Definition demo_state : App.globals :=
  App.Globals (Some (App.ModelObject demo_model))
              (list_to_map [("known", 0)])
              (list_to_map [("m0", 0); ("m1", 1)])
              demo_reverse.

(** The demo state with the reverse entry of item 1 missing. *)
Definition lossy_state : App.globals :=
  App.Globals (Some (App.ModelObject demo_model))
              (list_to_map [("known", 0)])
              (list_to_map [("m0", 0); ("m1", 1)])
              (list_to_map [(0, "m0")]).

(** The demo mappings before any model was loaded. *)
Definition unloaded_state : App.globals :=
  App.Globals None (list_to_map [("known", 0)])
              (list_to_map [("m0", 0); ("m1", 1)]) demo_reverse.

(** * Vocabulary and sample data of the further properties *)

(** The number of elements [l[:k]] keeps of a list of [n] elements. *)
Definition slice_length (k : Z) (n : nat) : nat :=
  Z.to_nat (if 0 <=? k then Z.min k (Z.of_nat n) else Z.of_nat n + k).

(** A mapping file whose three tables are empty. *)
Definition empty_tables_files : Files :=
  MkFiles (Some (Pickle.Mappings (Some ∅) (Some ∅) (Some ∅))) None.

(** Two user values and two movie values as the database may return
    them, in two different orders. *)
Definition harvested_users : list GenerateMapping.db_value :=
  [GenerateMapping.ObjectId "u2"; GenerateMapping.ObjectId "u1"].

Definition harvested_users_reordered : list GenerateMapping.db_value :=
  [GenerateMapping.ObjectId "u1"; GenerateMapping.ObjectId "u2"].

Definition harvested_movies : list GenerateMapping.db_value :=
  [GenerateMapping.StrValue "m2"; GenerateMapping.ObjectId "m1"].

Definition harvested_movies_reordered : list GenerateMapping.db_value :=
  [GenerateMapping.ObjectId "m1"; GenerateMapping.StrValue "m2"].

(** A checkpoint dictionary for one user and two items of dimension 4. *)
Definition demo_checkpoint : App.checkpoint :=
  App.CheckpointDict
    (Some (App.Config 1 2 4 3 0 0 false))
    (App.StateDict (Some [[1; 0; 0; 0]]) (Some [[1; 0; 0; 0]; [0; 1; 0; 0]]) None).

(** The demo state with a second user mapped to the index of the first. *)
Definition shared_index_state : App.globals :=
  App.Globals (Some (App.ModelObject demo_model))
              (list_to_map [("known", 0); ("guest", 0)])
              (list_to_map [("m0", 0); ("m1", 1)])
              demo_reverse.

(** The numeric library on integers with the identity as its only
    propagation graph: every layer equals the input, so the mean of the
    layers and any normalised weighted sum of them are the input again
    (and the initial attention weights, which only enter through the
    softmax, can be any constant vector). *)
Definition identity_graph_torch : Torch := {|
  scalar := Z;
  graph := unit;
  s_zero := 0;
  s_add := Z.add;
  s_mul := Z.mul;
  s_leb := Z.leb;
  sparse_mm := λ _ all_emb, inr all_emb;
  mean_layers := λ embs,
    match embs with
    | first :: _ => inr first
    | [] => inl RuntimeError
    end;
  attention_layers := λ _ embs,
    match embs with
    | first :: _ => inr first
    | [] => inl RuntimeError
    end;
  randn := λ rows dim, replicate rows (replicate dim 0);
  uniform_weights := λ n, replicate n 0;
  argsort := argsort_by Z.leb
|}.

(** The demo model with the identity graph attached. *)
Definition graph_model : @App.ImprovedLightGCN identity_graph_torch :=
  @App.Model identity_graph_torch
    1 2 4 2 0 0 false
    [[1; 0; 0; 0]] [[1; 0; 0; 0]; [0; 1; 0; 0]]
    None (Some ()) None None false.

(** The demo model once its cache is filled. *)
Definition cached_demo_model : App.ImprovedLightGCN :=
  App.set_cache (Some (App.user_embedding demo_model))
                (Some (App.item_embedding demo_model)) true demo_model.

(** * Properties *)

(** ** Sorting *)

Section stable_sort.
Context {A : Type} (leb : A → A → bool).
Hypothesis leb_total : ∀ x y, leb x y = true ∨ leb y x = true.
Hypothesis leb_trans : ∀ x y z, leb x y = true → leb y z = true → leb x z = true.

Let le : relation A := λ x y, leb x y = true.

Lemma insert_sorted_perm x l : insert_sorted leb x l ≡ₚ x :: l.
Proof.
  induction l as [|y l IH]; simpl; [done|].
  destruct (leb x y); [done|].
  rewrite IH. apply Permutation_swap.
Qed.

Lemma stable_sort_perm l : stable_sort leb l ≡ₚ l.
Proof.
  induction l as [|x l IH]; simpl; [done|].
  unfold stable_sort in *. simpl. by rewrite insert_sorted_perm, IH.
Qed.

Lemma insert_sorted_strongly x l :
  StronglySorted le l → StronglySorted le (insert_sorted leb x l).
Proof.
  induction 1 as [|y l Hl IH Hy]; simpl.
  - repeat constructor.
  - destruct (leb x y) eqn:Hxy.
    + constructor; [by constructor|].
      constructor; [exact Hxy|].
      eapply Forall_impl; [exact Hy|]. intros z Hz. by eapply leb_trans.
    + constructor; [exact IH|].
      rewrite insert_sorted_perm. constructor; [|exact Hy].
      destruct (leb_total x y) as [E|E]; [congruence|exact E].
Qed.

Lemma stable_sort_strongly l : StronglySorted le (stable_sort leb l).
Proof.
  induction l as [|x l IH]; [constructor|].
  by apply insert_sorted_strongly.
Qed.
End stable_sort.

(** Two positions of a strongly sorted list are related. *)
Lemma StronglySorted_lookup {A} (R : relation A) (l : list A) (i j : nat) (x y : A) :
  StronglySorted R l → (i < j)%nat → l !! i = Some x → l !! j = Some y → R x y.
Proof.
  intros Hs. revert i j. induction Hs as [|a l Hl IH Ha]; intros i j Hij Hi Hj.
  - by rewrite lookup_nil in Hi.
  - destruct j as [|j]; [lia|]. simpl in Hj.
    destruct i as [|i]; simpl in Hi.
    + injection Hi as ->. rewrite Forall_forall in Ha.
      apply Ha. by eapply list_elem_of_lookup_2.
    + eapply (IH i j); [lia|done..].
Qed.

Lemma argsort_by_perm {A} (leb : A → A → bool) (scores : list A) :
  argsort_by leb scores ≡ₚ seq 0 (length scores).
Proof.
  unfold argsort_by. rewrite stable_sort_perm.
  by rewrite snd_zip by (rewrite length_seq; lia).
Qed.

Lemma argsort_by_ascending {A} (leb : A → A → bool) (scores : list A)
    (i j p q : nat) (x y : A) :
  (∀ x y, leb x y = true ∨ leb y x = true) →
  (∀ x y z, leb x y = true → leb y z = true → leb x z = true) →
  (i < j)%nat →
  argsort_by leb scores !! i = Some p → argsort_by leb scores !! j = Some q →
  scores !! p = Some x → scores !! q = Some y →
  leb x y = true.
Proof.
  intros Htot Htrans Hij Hi Hj Hx Hy. unfold argsort_by in Hi, Hj.
  rewrite list_lookup_fmap in Hi, Hj.
  set (pairs := zip scores (seq 0 (length scores))) in *.
  destruct (stable_sort _ pairs !! i) as [[x' p']|] eqn:Ei; [|done].
  destruct (stable_sort _ pairs !! j) as [[y' q']|] eqn:Ej; [|done].
  simpl in Hi, Hj. injection Hi as ->. injection Hj as ->.
  assert (Hin : ∀ s k, (s, k) ∈ stable_sort (λ a b, leb a.1 b.1) pairs →
                       scores !! k = Some s).
  { intros s k Hk. rewrite stable_sort_perm in Hk.
    apply list_elem_of_lookup in Hk as [n Hn]. unfold pairs in Hn.
    apply lookup_zip_with_Some in Hn as (s' & k' & [= <- <-] & Hs & Hk).
    apply lookup_seq in Hk as [-> _]. exact Hs. }
  pose proof (Hin _ _ (list_elem_of_lookup_2 _ _ _ Ei)) as Hx'.
  pose proof (Hin _ _ (list_elem_of_lookup_2 _ _ _ Ej)) as Hy'.
  assert (x' = x) as -> by congruence. assert (y' = y) as -> by congruence.
  change (leb (x, p).1 (y, q).1 = true).
  eapply (StronglySorted_lookup (λ a b, leb a.1 b.1 = true)); [|exact Hij|done..].
  apply stable_sort_strongly; naive_solver.
Qed.

#[export] Instance Z_torch_laws : TorchLaws Z_torch.
Proof.
  split.
  - intros x y. simpl in *. rewrite !Z.leb_le. lia.
  - intros x y z. simpl. rewrite !Z.leb_le. lia.
  - intros scores. apply argsort_by_perm.
  - intros scores i j p q x y. apply argsort_by_ascending.
    + intros a b. rewrite !Z.leb_le. lia.
    + intros a b c. rewrite !Z.leb_le. lia.
Qed.

(** ** The mapping tools *)

Lemma py_max_spec (l : list Z) :
  match py_max l with
  | None => l = []
  | Some m => m ∈ l ∧ Forall (λ v, v <= m) l
  end.
Proof.
  induction l as [|x l IH]; simpl; [done|].
  destruct (py_max l) as [y|].
  - destruct IH as [Hy Hall]. split.
    + destruct (Z.max_spec x y) as [[_ ->]|[_ ->]]; set_solver.
    + constructor; [lia|]. eapply Forall_impl; [exact Hall|]. simpl. lia.
  - subst l. split; [set_solver|]. by repeat constructor.
Qed.

Lemma max_index_spec (um : gmap string Z) :
  um ≠ ∅ → ∃ m, ManageMapping.max_index um = Some m ∧ is_max_index um m.
Proof.
  intros Hne. unfold ManageMapping.max_index.
  pose proof (py_max_spec ((map_to_list um).*2)) as H.
  destruct (py_max _) as [m|].
  - exists m. split; [done|]. destruct H as [Hin Hall]. split.
    + apply list_elem_of_fmap in Hin as ([k v] & -> & Hkv).
      exists k. by apply elem_of_map_to_list.
    + intros k v Hkv. rewrite Forall_forall in Hall. apply Hall.
      apply list_elem_of_fmap. exists (k, v). split; [done|].
      by apply elem_of_map_to_list.
  - apply fmap_nil_inv in H. by apply map_to_list_empty_iff in H.
Qed.

Section add_bulk_loop.
Import ManageMapping.
Variable start_index : Z.

Lemma add_bulk_loop_app p1 p2 um out :
  add_bulk_loop start_index (p1 ++ p2) um out =
  match add_bulk_loop start_index p1 um out with
  | (um1, out1, None) => add_bulk_loop start_index p2 um1 out1
  | r => r
  end.
Proof.
  revert um out. induction p1 as [|[i id] p1 IH]; intros um out; simpl; [done|].
  destruct (um !! id); [apply IH|].
  destruct (Z.of_nat (size um) =? 0); [done|apply IH].
Qed.

(** On a mapping that is not empty the loop runs to its end, and it
    only ever adds keys. *)
Lemma add_bulk_loop_total p um out :
  um ≠ ∅ →
  ∃ um' out', add_bulk_loop start_index p um out = (um', out', None) ∧
              um ⊆ um' ∧ um' ≠ ∅ ∧
              (∀ k, k ∉ p.*2 → um' !! k = um !! k).
Proof.
  revert um out. induction p as [|[i id] p IH]; intros um out Hne; simpl.
  - by exists um, out.
  - destruct (um !! id) as [v|] eqn:Hid.
    + destruct (IH um (out ++ [SkippedExists id]) Hne) as (um' & out' & -> & ? & ? & Hk).
      exists um', out'. repeat split; try done.
      intros k Hk'. apply Hk.
      apply not_elem_of_cons in Hk'. tauto.
    + assert ((Z.of_nat (size um) =? 0) = false) as ->.
      { apply Z.eqb_neq. apply map_size_non_empty_iff in Hne. lia. }
      set (um1 := <[id := _]> um).
      assert (um1 ≠ ∅) as Hne1 by apply insert_non_empty.
      destruct (IH um1 (out ++ [Added id ((start_index + i) mod Z.of_nat (size um))]) Hne1)
        as (um' & out' & -> & Hsub & ? & Hk).
      exists um', out'. repeat split; try done.
      * etrans; [|exact Hsub]. by apply insert_subseteq.
      * intros k Hk'. apply not_elem_of_cons in Hk'.
        rewrite Hk by tauto.
        unfold um1. apply lookup_insert_ne. intros ->. tauto.
Qed.
End add_bulk_loop.

Lemma enumerate_from_app {A} (i : Z) (l1 l2 : list A) :
  enumerate_from i (l1 ++ l2) =
  enumerate_from i l1 ++ enumerate_from (i + Z.of_nat (length l1)) l2.
Proof.
  revert i. induction l1 as [|x l1 IH]; intros i; simpl.
  - f_equal. lia.
  - rewrite IH. do 3 f_equal. lia.
Qed.

Lemma enumerate_from_snd {A} (i : Z) (l : list A) : (enumerate_from i l).*2 = l.
Proof. revert i. induction l as [|x l IH]; intros i; simpl; [done|]. by rewrite IH. Qed.

(** C7. [add_bulk(mongo_ids, start_index)] on a stored user mapping that is
    not empty runs to its end, keeps a backup of the previous file, and
    gives the identifier at every position [i] of [mongo_ids] that is not
    yet mapped when the loop reaches it (not in the file, not added earlier
    by the same call) the index [(start_index + i) mod n], where [n] is the
    number of users mapped at that moment; an identifier that is already
    mapped keeps its index, and no other key changes.  In particular, on a
    mapping of five users, bulk-adding the new identifiers a, b, c from
    start index 0 assigns them 0, 1 and 2. *)
Theorem add_bulk_assigns (fs : Files) (m : Pickle.mappings) (um : gmap string Z)
    (mongo_ids : list string) (start_index : Z) :
  mapping_file fs = Some m →
  Pickle.user_mapping m = Some um →
  um ≠ ∅ →
  ∃ um' out,
    ManageMapping.add_bulk mongo_ids start_index fs =
      ManageMapping.Run (MkFiles (Some (Pickle.set_user_mapping um' m)) (Some m))
                        out None ∧
    (∀ (i : nat) (mongo_id : string),
        mongo_ids !! i = Some mongo_id →
        ∃ before,
          stored_user_mapping
            (ManageMapping.files
               (ManageMapping.add_bulk (take i mongo_ids) start_index fs))
            = Some before ∧
          um' !! mongo_id =
            Some (match before !! mongo_id with
                  | Some idx => idx
                  | None => (start_index + Z.of_nat i) mod Z.of_nat (size before)
                  end)) ∧
    (∀ k, k ∉ mongo_ids → um' !! k = um !! k) ∧
    (size um = 5%nat → start_index = 0 → mongo_ids = scenario_ids →
     um !! "a" = None → um !! "b" = None → um !! "c" = None →
     um' = <["c" := 2]> (<["b" := 1]> (<["a" := 0]> um))).
Proof.
  intros Hfile Hum Hne.
  assert (Hrun : ∀ ids, ∃ um' out,
    ManageMapping.add_bulk_loop start_index (enumerate ids) um [] = (um', out, None) ∧
    ManageMapping.add_bulk ids start_index fs =
      ManageMapping.Run (MkFiles (Some (Pickle.set_user_mapping um' m)) (Some m))
                        (out ++ [Saved]) None ∧
    um ⊆ um' ∧ um' ≠ ∅ ∧ (∀ k, k ∉ ids → um' !! k = um !! k)).
  { intros ids.
    destruct (add_bulk_loop_total start_index (enumerate ids) um [] Hne)
      as (um' & out & Hloop & Hsub & Hne' & Hk).
    exists um', out. split; [done|]. split.
    - unfold ManageMapping.add_bulk, ManageMapping.load_mappings,
        ManageMapping.save_mappings.
      by rewrite Hfile, Hum, Hloop.
    - repeat split; try done. intros k Hk'. apply Hk.
      unfold enumerate. by rewrite enumerate_from_snd. }
  destruct (Hrun mongo_ids) as (um' & out & Hloop & Hadd & Hsub & Hne' & Hother).
  exists um', (out ++ [Saved]). split; [exact Hadd|]. split; [|split; [exact Hother|]].
  - intros i mongo_id Hi.
    destruct (Hrun (take i mongo_ids)) as (before & out1 & Hloop1 & Hadd1 & _ & Hne1 & _).
    exists before. split.
    { rewrite Hadd1. reflexivity. }
    pose proof (take_drop_middle _ _ _ Hi) as Hsplit.
    rewrite <- Hsplit in Hloop. unfold enumerate in Hloop, Hloop1.
    rewrite enumerate_from_app, add_bulk_loop_app, Hloop1 in Hloop.
    rewrite length_take_le in Hloop by (apply lookup_lt_Some in Hi; lia).
    simpl in Hloop. rewrite Z.add_0_l in Hloop.
    destruct (before !! mongo_id) as [idx|] eqn:Hbefore.
    + destruct (add_bulk_loop_total start_index
                  (enumerate_from (Z.of_nat i + 1) (drop (S i) mongo_ids))
                  before (out1 ++ [SkippedExists mongo_id]) Hne1)
        as (um2 & out2 & Hloop2 & Hsub2 & _).
      rewrite Hloop2 in Hloop. injection Hloop as <- _.
      by eapply lookup_weaken.
    + assert ((Z.of_nat (size before) =? 0) = false) as Hsz.
      { apply Z.eqb_neq. apply map_size_non_empty_iff in Hne1. lia. }
      rewrite Hsz in Hloop.
      set (idx := (start_index + Z.of_nat i) mod Z.of_nat (size before)) in *.
      destruct (add_bulk_loop_total start_index
                  (enumerate_from (Z.of_nat i + 1) (drop (S i) mongo_ids))
                  (<[mongo_id := idx]> before) (out1 ++ [Added mongo_id idx])
                  (insert_non_empty _ _ _))
        as (um2 & out2 & Hloop2 & Hsub2 & _).
      rewrite Hloop2 in Hloop. injection Hloop as <- _.
      eapply lookup_weaken; [|exact Hsub2]. apply lookup_insert_eq.
  - intros Hsize -> -> Ha Hb Hc. unfold scenario_ids, enumerate in Hloop.
    simpl in Hloop. rewrite Ha in Hloop. rewrite Hsize in Hloop. simpl in Hloop.
    rewrite lookup_insert_ne, Hb in Hloop by done.
    rewrite map_size_insert_None, Hsize in Hloop by done. simpl in Hloop.
    rewrite !lookup_insert_ne, Hc in Hloop by done.
    rewrite !map_size_insert_None, Hsize in Hloop
      by (rewrite ?lookup_insert_ne by done; done).
    simpl in Hloop. by injection Hloop as <- _.
Qed.

Lemma five_users_non_empty : five_users ≠ ∅.
Proof. apply insert_non_empty. Qed.

Lemma add_bulk_assigns_witness :
  ∃ um' out,
    ManageMapping.add_bulk scenario_ids 0 five_users_files =
      ManageMapping.Run
        (MkFiles (Some (Pickle.set_user_mapping um' five_users_mappings))
                 (Some five_users_mappings)) out None ∧
    um' !! "a" = Some 0 ∧ um' !! "b" = Some 1 ∧ um' !! "c" = Some 2.
Proof.
  destruct (add_bulk_assigns five_users_files five_users_mappings five_users
              scenario_ids 0 eq_refl eq_refl five_users_non_empty)
    as (um' & out & Hrun & _ & _ & Hscenario).
  exists um', out. split; [exact Hrun|].
  rewrite Hscenario by (vm_compute; reflexivity).
  vm_compute. auto.
Defined.

(** C8. [add_user] on an identifier that is already in the stored user
    mapping changes neither the mapping file nor its backup, whatever index
    is requested; it prints the warning and returns normally.  Running it
    again (with any index) gives the same result. *)
Theorem add_user_existing_noop (fs : Files) (m : Pickle.mappings)
    (um : gmap string Z) (mongo_id : string) (idx user_index : Z) :
  mapping_file fs = Some m →
  Pickle.user_mapping m = Some um →
  um !! mongo_id = Some idx →
  ManageMapping.add_user mongo_id user_index fs =
    ManageMapping.Run fs [AlreadyExists mongo_id idx] None ∧
  ∀ user_index',
    ManageMapping.add_user mongo_id user_index'
      (ManageMapping.files (ManageMapping.add_user mongo_id user_index fs)) =
    ManageMapping.add_user mongo_id user_index fs.
Proof.
  intros Hfile Hum Hid.
  assert (∀ i, ManageMapping.add_user mongo_id i fs =
               ManageMapping.Run fs [AlreadyExists mongo_id idx] None) as Hrun.
  { intros i. unfold ManageMapping.add_user, ManageMapping.load_mappings.
    by rewrite Hfile, Hum, Hid. }
  split; [apply Hrun|]. intros i. rewrite (Hrun user_index). simpl. apply Hrun.
Qed.

Lemma add_user_existing_noop_witness :
  ManageMapping.add_user "u3" 0 five_users_files =
    ManageMapping.Run five_users_files [AlreadyExists "u3" 3] None.
Proof.
  apply (add_user_existing_noop five_users_files five_users_mappings five_users
           "u3" 3 0); reflexivity.
Defined.

(** C9. [add_user] with a new identifier on a stored user mapping that is
    not empty inserts the identifier with the largest mapped index when the
    requested index is above it, and with the requested index otherwise; the
    call is not rejected, the previous file becomes the backup. *)
Theorem add_user_clamps_index (fs : Files) (m : Pickle.mappings)
    (um : gmap string Z) (mongo_id : string) (user_index : Z) :
  mapping_file fs = Some m →
  Pickle.user_mapping m = Some um →
  um !! mongo_id = None →
  um ≠ ∅ →
  ∃ max_index out,
    is_max_index um max_index ∧
    ManageMapping.add_user mongo_id user_index fs =
      ManageMapping.Run
        (MkFiles
           (Some (Pickle.set_user_mapping
                    (<[mongo_id :=
                         if decide (user_index > max_index) then max_index
                         else user_index]> um) m))
           (Some m))
        out None.
Proof.
  intros Hfile Hum Hid Hne.
  destruct (max_index_spec um Hne) as (mx & Hmx & Hmax).
  unfold ManageMapping.add_user, ManageMapping.load_mappings,
    ManageMapping.save_mappings.
  rewrite Hfile, Hum, Hid, Hmx.
  destruct (Z.ltb_spec mx user_index) as [Hlt|Hge].
  - exists mx, ([IndexAboveMax user_index mx] ++ [Saved] ++ [Added mongo_id mx]).
    split; [done|]. by rewrite decide_True by lia.
  - exists mx, ([] ++ [Saved] ++ [Added mongo_id user_index]).
    split; [done|]. by rewrite decide_False by lia.
Qed.

Lemma add_user_clamps_index_witness :
  stored_user_mapping
    (ManageMapping.files (ManageMapping.add_user "new" 9 five_users_files)) =
  Some (<["new" := 4]> five_users).
Proof.
  destruct (add_user_clamps_index five_users_files five_users_mappings five_users
              "new" 9 eq_refl eq_refl eq_refl five_users_non_empty)
    as (mx & out & [[k Hk] Hle] & ->).
  simpl. unfold stored_user_mapping. simpl. do 2 f_equal.
  assert (mx = 4) as ->; [|reflexivity].
  pose proof (Hle "u4" 4 eq_refl).
  assert (mx <= 4); [|lia].
  unfold five_users in Hk. simpl in Hk.
  repeat (apply lookup_insert_Some in Hk as [[_ <-]|[_ Hk]]; [lia|]).
  by rewrite lookup_empty in Hk.
Defined.

(** ** The inverse invariant of the movie tables *)

Lemma movie_loop_inverse (movies : list GenerateMapping.db_value) (n : Z)
    (acc : gmap string Z * gmap Z string) :
  (∀ ext_id idx, acc.1 !! ext_id = Some idx → acc.2 !! idx = Some ext_id ∧ idx < n) →
  inverse_tables
    (fold_left GenerateMapping.movie_step (enumerate_from n movies) acc).1
    (fold_left GenerateMapping.movie_step (enumerate_from n movies) acc).2.
Proof.
  revert n acc. induction movies as [|movie_id movies IH]; intros n [mm rm] Hacc; simpl.
  - intros ext_id idx H. by apply Hacc.
  - apply IH. simpl. intros ext_id idx H.
    destruct (decide (GenerateMapping.str movie_id = ext_id)) as [<-|Hne].
    + rewrite lookup_insert_eq in H. injection H as <-.
      rewrite lookup_insert_eq. split; [done|lia].
    + rewrite lookup_insert_ne in H by done.
      destruct (Hacc _ _ H) as [Hrm Hlt]. simpl in Hrm.
      rewrite lookup_insert_ne by lia. split; [done|lia].
Qed.

Lemma generate_mappings_inverse unique_users unique_movies fs :
  files_inverse (GenerateMapping.generate_mappings unique_users unique_movies fs).
Proof.
  unfold GenerateMapping.generate_mappings.
  pose proof (movie_loop_inverse (GenerateMapping.sorted_by_str unique_movies) 0 (∅, ∅)) as H.
  fold (enumerate (GenerateMapping.sorted_by_str unique_movies)) in H.
  fold (GenerateMapping.build_movie_mappings unique_movies) in H.
  destruct (GenerateMapping.build_movie_mappings unique_movies) as [mm rm].
  eexists _, mm, rm. repeat split. apply H. intros ext_id idx Hl.
  simpl in Hl. by rewrite lookup_empty in Hl.
Qed.

(** When the distinct movie values also print differently, the two
    tables are inverse in the other direction too: every reverse entry is
    answered by the movie mapping. *)
Lemma movie_loop_converse (movies : list GenerateMapping.db_value) (n : Z)
    (acc : gmap string Z * gmap Z string) :
  NoDup (GenerateMapping.str <$> movies) →
  (∀ movie_id, movie_id ∈ movies → acc.1 !! GenerateMapping.str movie_id = None) →
  (∀ idx ext_id, acc.2 !! idx = Some ext_id → acc.1 !! ext_id = Some idx) →
  ∀ idx ext_id,
    (fold_left GenerateMapping.movie_step (enumerate_from n movies) acc).2 !! idx
      = Some ext_id →
    (fold_left GenerateMapping.movie_step (enumerate_from n movies) acc).1 !! ext_id
      = Some idx.
Proof.
  revert n acc. induction movies as [|movie_id movies IH];
    intros n [mm rm] Hnd Hfresh Hacc; simpl; [exact Hacc|].
  apply NoDup_cons in Hnd as [Hnotin Hnd]. simpl in Hfresh.
  apply IH; [exact Hnd|..]; simpl.
  - intros other Hother. rewrite lookup_insert_ne.
    + apply Hfresh. by right.
    + intros Heq. apply Hnotin. rewrite Heq. by apply list_elem_of_fmap_2.
  - intros idx ext_id H. destruct (decide (n = idx)) as [<-|Hne].
    + rewrite lookup_insert_eq in H. injection H as <-. apply lookup_insert_eq.
    + rewrite lookup_insert_ne in H by done. apply Hacc in H. simpl in H.
      rewrite lookup_insert_ne; [done|]. intros Heq.
      specialize (Hfresh movie_id ltac:(by left)). congruence.
Qed.

Lemma build_movie_mappings_converse (unique_movies : list GenerateMapping.db_value) :
  NoDup (GenerateMapping.str <$> unique_movies) →
  ∀ idx ext_id,
    (GenerateMapping.build_movie_mappings unique_movies).2 !! idx = Some ext_id →
    (GenerateMapping.build_movie_mappings unique_movies).1 !! ext_id = Some idx.
Proof.
  intros Hnd. apply movie_loop_converse.
  - unfold GenerateMapping.sorted_by_str. by rewrite stable_sort_perm.
  - intros movie_id _. apply lookup_empty.
  - intros idx ext_id H. simpl in H. by rewrite lookup_empty in H.
Qed.






(** ** The recommendation service *)

Section service.
Context {T : Torch}.
Import App.

(** C4. Without a propagation graph [computer] returns the two raw
    embedding tables, whatever the layer count (and every other field)
    of the model is. *)
Theorem computer_without_graph (self : ImprovedLightGCN) :
  Graph self = None →
  computer self = inr (user_embedding self, item_embedding self).
Proof. intros H. unfold computer. by rewrite H. Qed.

(** C10. With no model loaded, [get_recommendations] raises the HTTP 500
    "Model not loaded" error for every request, before the user mapping
    is looked at: an identifier that is absent from [user_mapping] gets
    the error and not the cold-start response. *)
Theorem model_check_precedes_cold_start (request : RecommendationRequest)
    (st : globals) :
  model st = None →
  get_recommendations request st = (inl (HTTPError 500 ModelNotLoaded), st) ∧
  (get_recommendations request st).1 ≠ inr (get_popular_movies (top_k request)).
Proof.
  intros H. unfold get_recommendations. rewrite H. split; [done|]. simpl. congruence.
Qed.

(** With a model loaded, an identifier that is not in [user_mapping] gets
    the response of [get_popular_movies]: no error, no recommendation,
    and the constant user id of that function. *)
Lemma cold_start_response (request : RecommendationRequest) (st : globals)
    (obj : py_object) :
  model st = Some obj →
  user_mapping st !! req_user_id request = None →
  get_recommendations request st = (inr (Response "unknown" []), st).
Proof.
  intros Hm Hu. unfold get_recommendations. by rewrite Hm, Hu.
Qed.

(** *** Reloading *)



End service.

(** *** Scoring *)

Lemma lookup_StronglySorted {A} (R : relation A) (l : list A) :
  (∀ i j x y, (i < j)%nat → l !! i = Some x → l !! j = Some y → R x y) →
  StronglySorted R l.
Proof.
  induction l as [|a l IH]; intros H; constructor.
  - apply IH. intros i j x y Hij Hi Hj. by apply (H (S i) (S j)); [lia|..].
  - apply Forall_forall. intros y Hy. apply list_elem_of_lookup in Hy as [j Hj].
    by apply (H 0%nat (S j)); [lia|..].
Qed.

Lemma StronglySorted_reverse {A} (R : relation A) (l : list A) :
  StronglySorted R l → StronglySorted (flip R) (reverse l).
Proof.
  induction 1 as [|a l Hl IH Ha]; [constructor|].
  rewrite reverse_cons. apply StronglySorted_app_2.
  - intros x y Hx Hy. apply list_elem_of_singleton in Hy as ->.
    rewrite elem_of_reverse in Hx. rewrite Forall_forall in Ha.
    unfold flip. by apply Ha.
  - exact IH.
  - repeat constructor.
Qed.

Lemma StronglySorted_take {A} (R : relation A) (n : nat) (l : list A) :
  StronglySorted R l → StronglySorted R (take n l).
Proof.
  intros H. rewrite <- (take_drop n l) in H. by apply StronglySorted_app_1_l in H.
Qed.

Lemma slice_to_take {A} (k : Z) (l : list A) : ∃ n, slice_to k l = take n l.
Proof. unfold slice_to. destruct (0 <=? k); eauto. Qed.

Lemma length_slice_to {A} (k : Z) (l : list A) :
  0 < k → Z.of_nat (length (slice_to k l)) <= k ∧ (length (slice_to k l) ≤ length l)%nat.
Proof.
  intros Hk. unfold slice_to. destruct (Z.leb_spec 0 k); [|lia].
  rewrite length_take. split; lia.
Qed.

Lemma length_omap_le {A B} (f : A → option B) (l : list A) :
  (length (omap f l) ≤ length l)%nat.
Proof. induction l as [|x l IH]; csimpl; [lia|]. destruct (f x); csimpl; lia. Qed.

Lemma length_omap_lt {A B} (f : A → option B) (l : list A) (x : A) :
  x ∈ l → f x = None → (length (omap f l) < length l)%nat.
Proof.
  induction 1 as [x l|x y l Hin IH]; intros Hx; csimpl.
  - rewrite Hx. pose proof (length_omap_le f l). lia.
  - specialize (IH Hx). destruct (f y); csimpl; lia.
Qed.

Section scoring.
Context {T : Torch} `{!TorchLaws T}.
Import App.

Lemma top_indices_in_range (scores : list scalar) (k : Z) :
  Forall (λ idx, (idx < length scores)%nat) (top_indices scores k).
Proof.
  apply Forall_forall. intros idx Hidx. unfold top_indices in Hidx.
  destruct (slice_to_take k (reverse (argsort scores))) as [n Hn].
  rewrite Hn in Hidx. apply subseteq_take in Hidx.
  rewrite elem_of_reverse, argsort_perm in Hidx. apply elem_of_seq in Hidx. lia.
Qed.

Lemma top_indices_descending (scores : list scalar) (k : Z) :
  StronglySorted (flip (score_le scores)) (top_indices scores k).
Proof.
  unfold top_indices.
  destruct (slice_to_take k (reverse (argsort scores))) as [n ->].
  apply StronglySorted_take, StronglySorted_reverse, lookup_StronglySorted.
  intros i j p q Hij Hp Hq x y Hx Hy. by eapply argsort_ascending.
Qed.

(** In range, the loop never raises: it is a filter over the indices. *)
Lemma convert_omap (rmm : gmap Z string) (scores : list scalar) (idxs : list nat) :
  Forall (λ idx, (idx < length scores)%nat) idxs →
  convert rmm scores idxs = inr (omap (entry_of rmm scores) idxs).
Proof.
  induction 1 as [|idx idxs Hidx _ IH]; simpl; [done|].
  apply lookup_lt_is_Some in Hidx as [s Hs].
  unfold entry_of at 1. rewrite IH, Hs.
  by destruct (rmm !! Z.of_nat idx) as [[|a id]|].
Qed.

Lemma entry_of_Some rmm (scores : list scalar) idx r :
  entry_of rmm scores idx = Some r →
  rmm !! Z.of_nat idx = Some (movieId r) ∧ scores !! idx = Some (score r).
Proof.
  unfold entry_of. destruct (rmm !! Z.of_nat idx) as [[|a id]|]; [done| |done].
  destruct (scores !! idx); [|done]. by intros [= <-].
Qed.

Lemma omap_entries_non_increasing rmm (scores : list scalar) idxs :
  StronglySorted (flip (score_le scores)) idxs →
  StronglySorted (λ r1 r2, s_leb (score r2) (score r1) = true)
                 (omap (entry_of rmm scores) idxs).
Proof.
  induction 1 as [|idx idxs Hs IH Hidx]; simpl; [constructor|].
  destruct (entry_of rmm scores idx) as [r|] eqn:Hr; [|exact IH].
  simpl. constructor; [exact IH|].
  apply Forall_forall. intros r' Hr'.
  apply list_elem_of_omap in Hr' as (idx' & Hin & Hr').
  apply entry_of_Some in Hr as [_ Hr]. apply entry_of_Some in Hr' as [_ Hr'].
  rewrite Forall_forall in Hidx. by apply (Hidx idx' Hin).
Qed.

Lemma user_scores_length (m : ImprovedLightGCN) (user_idx : Z) (scores : list scalar) :
  user_scores m user_idx = inr scores →
  ∃ items, cached_items m = Some items ∧ length scores = length items.
Proof.
  unfold user_scores, matmul. intros H.
  destruct (cached_users m) as [cu|]; [|done].
  destruct (tensor_row cu user_idx) as [|user_emb]; [done|].
  destruct (cached_items m) as [items|]; [|done].
  case_match; [|done].
  injection H as <-. exists items. by rewrite length_fmap.
Qed.

(** What a successful run of the scorer returns. *)
Lemma recommend_for_inr (m m' : ImprovedLightGCN) rmm (user_idx k : Z) recs :
  recommend_for m rmm user_idx k = (inr recs, m') →
  ∃ scores,
    ensure_cache m = (m', None) ∧
    user_scores m' user_idx = inr scores ∧
    recs = omap (entry_of rmm scores) (top_indices scores k).
Proof.
  unfold recommend_for. intros H.
  destruct (ensure_cache m) as [m1 [e|]]; [done|].
  destruct (user_scores m1 user_idx) as [e|scores] eqn:Hscores; [done|].
  rewrite convert_omap in H by apply top_indices_in_range.
  injection H as <- <-. by exists scores.
Qed.

(** A freshly filled cache has one item row per item of the model. *)
Lemma ensure_cache_items (m m' : ImprovedLightGCN) :
  _cache_valid m = false →
  length (item_embedding m) = num_items m →
  ensure_cache m = (m', None) →
  ∃ items, cached_items m' = Some items ∧ length items = num_items m.
Proof.
  unfold ensure_cache, computer. intros -> Hlen H.
  destruct (Graph m) as [g|].
  - destruct (propagate g (n_layers m) _) as [|embs]; [done|].
    destruct (if use_layer_attention m then _ else _) as [|final_emb];
      [discriminate H|].
    destruct (split final_emb (num_users m) (num_items m)) as [|[users items]] eqn:E;
      [done|].
    injection H as <-. simpl. exists items. split; [done|].
    unfold split in E. case_match eqn:Hrows; [|done].
    apply Nat.eqb_eq in Hrows. injection E as _ <-. rewrite length_drop. lia.
  - injection H as <-. simpl. eauto.
Qed.

(** C5, as the code has it.  The recommendation list of a successful
    run is ordered by non-increasing score: no entry has a smaller score
    than a later one.  Equal scores may follow each other, in the order
    the reversed [np.argsort] leaves them. *)
Theorem recommendations_non_increasing (m m' : ImprovedLightGCN)
    (rmm : gmap Z string) (user_idx k : Z) (recs : list recommendation) :
  recommend_for m rmm user_idx k = (inr recs, m') →
  non_increasing recs.
Proof.
  intros H. apply recommend_for_inr in H as (scores & _ & _ & ->).
  intros i j r1 r2 Hij H1 H2.
  eapply (StronglySorted_lookup (λ r1 r2, s_leb (score r2) (score r1) = true));
    [|exact Hij|exact H1|exact H2].
  apply omap_entries_non_increasing, top_indices_descending.
Qed.

(** C6. For a request of a mapped user with a positive [top_k], once
    the final embeddings are there and the scores of the user are
    computed, [get_recommendations] returns a response and no error,
    however large [top_k] is.  Its list has at most [top_k] entries and at
    most as many as there are items; it holds, in order, the entries of
    the top indices that have a (non-empty) reverse mapping entry, the
    other top indices being skipped. *)
Theorem scorer_output_bounded (st : globals) (m m' : ImprovedLightGCN)
    (request : RecommendationRequest) (user_idx : Z) (scores : list scalar) :
  model st = Some (ModelObject m) →
  user_mapping st !! req_user_id request = Some user_idx →
  ensure_cache m = (m', None) →
  user_scores m' user_idx = inr scores →
  0 < top_k request →
  ∃ recs,
    get_recommendations request st =
      (inr (Response (req_user_id request) recs), set_model (ModelObject m') st) ∧
    recs = omap (entry_of (reverse_movie_mapping st) scores)
                (top_indices scores (top_k request)) ∧
    Z.of_nat (length recs) <= top_k request ∧
    (∃ items, cached_items m' = Some items ∧ (length recs ≤ length items)%nat) ∧
    (_cache_valid m = false → length (item_embedding m) = num_items m →
     (length recs ≤ num_items m)%nat) ∧
    (∀ r, r ∈ recs →
          ∃ idx, idx ∈ top_indices scores (top_k request) ∧
                 reverse_movie_mapping st !! Z.of_nat idx = Some (movieId r) ∧
                 scores !! idx = Some (score r)) ∧
    (∀ idx, idx ∈ top_indices scores (top_k request) →
            reverse_movie_mapping st !! Z.of_nat idx = None →
            (length recs < length (top_indices scores (top_k request)))%nat).
Proof.
  intros Hm Hu Hcache Hscores Hk.
  set (rmm := reverse_movie_mapping st).
  set (idxs := top_indices scores (top_k request)).
  exists (omap (entry_of rmm scores) idxs).
  assert (Hlen : (length (omap (entry_of rmm scores) idxs) ≤ length idxs)%nat)
    by apply length_omap_le.
  destruct (length_slice_to (top_k request) (reverse (argsort scores)) Hk)
    as [Hle_k Hle_n].
  fold (top_indices scores (top_k request)) in Hle_k, Hle_n. fold idxs in Hle_k, Hle_n.
  rewrite length_reverse, argsort_perm, length_seq in Hle_n.
  destruct (user_scores_length _ _ _ Hscores) as (items & Hitems & Hsl).
  repeat split.
  - unfold get_recommendations, recommend_for. rewrite Hm, Hu, Hcache, Hscores.
    fold rmm. by rewrite convert_omap by apply top_indices_in_range.
  - lia.
  - exists items. split; [done|]. lia.
  - intros Hvalid Hrows.
    destruct (ensure_cache_items _ _ Hvalid Hrows Hcache) as (items' & Hitems' & <-).
    assert (items' = items) as -> by congruence. lia.
  - intros r Hr. apply list_elem_of_omap in Hr as (idx & Hidx & Hr).
    apply entry_of_Some in Hr as [Hid Hscore]. by exists idx.
  - intros idx Hidx Hnone. apply (length_omap_lt _ _ idx); [done|].
    unfold entry_of. fold rmm in Hnone. by rewrite Hnone.
Qed.

End scoring.

(** ** The service on concrete requests *)

(** C1 on the code: with the demo model loaded, the request of the
    unmapped identifier u1 is answered without error and with an empty
    list, but the response carries the user id of [get_popular_movies],
    not the requested one. *)
Theorem cold_start_user_id_is_constant :
  App.get_recommendations (App.Request "u1" 10) demo_state =
    (inr (App.Response "unknown" []), demo_state).
Proof. by apply (cold_start_response _ _ (App.ModelObject demo_model)). Qed.



Lemma computer_without_graph_witness :
  App.computer demo_model =
    inr ([[1; 0; 0; 0]], [[1; 0; 0; 0]; [0; 1; 0; 0]]).
Proof. apply (computer_without_graph demo_model). reflexivity. Defined.

Lemma model_check_precedes_cold_start_witness :
  App.get_recommendations (App.Request "u1" 10) unloaded_state =
    (inl (App.HTTPError 500 App.ModelNotLoaded), unloaded_state).
Proof.
  apply (model_check_precedes_cold_start (App.Request "u1" 10) unloaded_state).
  reflexivity.
Defined.

(** C5 fails as stated: the two items of [tie_model] score 1 each, both
    are recommended, so the list is not strictly descending; and item 1
    comes before item 0. *)
Lemma equal_scores_not_strictly_descending :
  (App.recommend_for tie_model demo_reverse 0 2).1
    = inr [App.Rec "m1" 1; App.Rec "m0" 1] ∧
  ¬ strictly_descending [App.Rec "m1" 1; App.Rec "m0" 1].
Proof.
  split; [reflexivity|].
  intros H. specialize (H 0%nat 1%nat _ _ ltac:(lia) eq_refl eq_refl).
  discriminate H.
Qed.

Lemma recommendations_non_increasing_witness :
  non_increasing [App.Rec "m0" 1; App.Rec "m1" 0].
Proof.
  apply (recommendations_non_increasing demo_model
           (App.set_cache (Some (App.user_embedding demo_model))
                          (Some (App.item_embedding demo_model)) true demo_model)
           demo_reverse 0 2).
  reflexivity.
Defined.

Lemma scorer_output_bounded_witness :
  ∃ recs,
    (App.get_recommendations (App.Request "known" 5) lossy_state).1 =
      inr (App.Response "known" recs) ∧
    recs = [App.Rec "m0" 1].
Proof.
  destruct (scorer_output_bounded lossy_state demo_model
              (App.set_cache (Some (App.user_embedding demo_model))
                             (Some (App.item_embedding demo_model)) true demo_model)
              (App.Request "known" 5) 0 [1; 0]
              eq_refl eq_refl eq_refl eq_refl eq_refl)
    as (recs & Hrun & Hrecs & _).
  exists recs. split; [by rewrite Hrun|]. rewrite Hrecs. reflexivity.
Defined.

(** ** Runs of the tools and of the service *)

(** The bulk loop reads the length of the mapping at every insertion: from
    start index 7, on five users, the three identifiers all get index 2
    (7 mod 5, 8 mod 6, 9 mod 7). *)
Example add_bulk_from_seven :
  stored_user_mapping
    (ManageMapping.files (ManageMapping.add_bulk scenario_ids 7 five_users_files))
  = Some (<["c" := 2]> (<["b" := 2]> (<["a" := 2]> five_users))).
Proof. reflexivity. Qed.

(** On an empty user mapping the first new identifier divides by zero and
    nothing is saved. *)
Example add_bulk_on_empty_mapping :
  ManageMapping.add_bulk ["a"] 0
    (MkFiles (Some (Pickle.Mappings (Some ∅) (Some ∅) (Some ∅))) None)
  = ManageMapping.Run
      (MkFiles (Some (Pickle.Mappings (Some ∅) (Some ∅) (Some ∅))) None)
      [] (Some ZeroDivisionError).
Proof. reflexivity. Qed.

(** Two database values that print the same share one movie id: the
    movie mapping keeps the later index, the reverse table keeps both. *)
Example generate_with_equal_strings :
  GenerateMapping.build_movie_mappings
    [GenerateMapping.ObjectId "m2"; GenerateMapping.StrValue "m1";
     GenerateMapping.StrValue "m2"]
  = (list_to_map [("m1", 0); ("m2", 2)],
     list_to_map [(0, "m1"); (1, "m2"); (2, "m2")]).
Proof. reflexivity. Qed.

(** The scenario of the two unit vectors: the first item scores 1, the
    second 0, and the cache is filled on the way. *)
Example recommend_two_items :
  App.get_recommendations (App.Request "known" 2) demo_state =
    (inr (App.Response "known" [App.Rec "m0" 1; App.Rec "m1" 0]),
     App.set_model
       (App.ModelObject
          (App.set_cache (Some [[1; 0; 0; 0]])
                         (Some [[1; 0; 0; 0]; [0; 1; 0; 0]]) true demo_model))
       demo_state).
Proof. reflexivity. Qed.

(** A negative [top_k] drops that many indices from the end. *)
Example recommend_negative_top_k :
  (App.get_recommendations (App.Request "known" (-1)) demo_state).1 =
    inr (App.Response "known" [App.Rec "m0" 1]).
Proof. reflexivity. Qed.

(** A user index outside the embedding table is answered by an error. *)
Example recommend_index_out_of_range :
  (App.get_recommendations (App.Request "known" 2)
     (App.Globals (Some (App.ModelObject demo_model))
                  (list_to_map [("known", 5)]) ∅ demo_reverse)).1
  = inl (App.HTTPError 500 (App.ErrorGenerating IndexError)).
Proof. reflexivity. Qed.

(** A state dictionary whose item table has the wrong shape: the user
    table is copied all the same, then the call raises, and the reload
    leaves the half-filled model as the serving model. *)
Example reload_with_ill_shaped_state_dict :
  App.load_model
    (Some (App.CheckpointDict
             (Some (App.Config 1 2 4 3 0 0 false))
             (App.StateDict (Some [[0; 1; 0; 0]]) (Some [[1; 0; 0; 0]]) None)))
    five_users_files demo_state
  = (App.set_model
       (App.ModelObject
          {| App.num_users := 1;
             App.num_items := 2;
             App.embedding_dim := 4;
             App.n_layers := 3;
             App.reg_lambda := 0;
             App.dropout := 0;
             App.use_layer_attention := false;
             App.user_embedding := [[0; 1; 0; 0]];
             App.item_embedding := [[0; 0; 0; 0]; [0; 0; 0; 0]];
             App.layer_attention := None;
             App.Graph := None;
             App.cached_users := None;
             App.cached_items := None;
             App._cache_valid := false |})
       demo_state,
     Some RuntimeError).
Proof. reflexivity. Qed.


(** * Further properties of the mapping tools *)

(** X1. Whenever [add_user] or [add_bulk] changes the files at all, the
    backup file holds what the mapping file held before the command. *)
Theorem tool_commands_keep_backup (fs : Files) (mongo_id : string) (user_index : Z)
    (mongo_ids : list string) (start_index : Z) :
  (ManageMapping.files (ManageMapping.add_user mongo_id user_index fs) = fs ∨
   ∃ m, mapping_file fs = Some m ∧
        backup_file (ManageMapping.files (ManageMapping.add_user mongo_id user_index fs))
          = Some m) ∧
  (ManageMapping.files (ManageMapping.add_bulk mongo_ids start_index fs) = fs ∨
   ∃ m, mapping_file fs = Some m ∧
        backup_file (ManageMapping.files (ManageMapping.add_bulk mongo_ids start_index fs))
          = Some m).
Proof.
  unfold ManageMapping.add_user, ManageMapping.add_bulk, ManageMapping.load_mappings,
    ManageMapping.save_mappings.
  destruct (mapping_file fs) as [m|] eqn:Hfile; [|by split; left].
  split.
  - destruct (Pickle.user_mapping m) as [um|]; [|by left].
    destruct (um !! mongo_id); [by left|].
    destruct (ManageMapping.max_index um) as [mx|]; [|by left].
    right. exists m. by destruct (mx <? user_index).
  - destruct (Pickle.user_mapping m) as [um|].
    + destruct (ManageMapping.add_bulk_loop _ _ _ _) as [[um' out] [e|]]; [by left|].
      right. by exists m.
    + destruct mongo_ids; [|by left]. right. by exists m.
Qed.

(** X2. A command of the tool that raises leaves both files as they were;
    [check_user] never writes. *)
Theorem failed_command_keeps_files (fs : Files) (mongo_id : string) (user_index : Z)
    (mongo_ids : list string) (start_index : Z) :
  (ManageMapping.raised (ManageMapping.add_user mongo_id user_index fs) = None ∨
   ManageMapping.files (ManageMapping.add_user mongo_id user_index fs) = fs) ∧
  (ManageMapping.raised (ManageMapping.add_bulk mongo_ids start_index fs) = None ∨
   ManageMapping.files (ManageMapping.add_bulk mongo_ids start_index fs) = fs) ∧
  ManageMapping.files (ManageMapping.check_user mongo_id fs) = fs.
Proof.
  unfold ManageMapping.add_user, ManageMapping.add_bulk, ManageMapping.check_user,
    ManageMapping.load_mappings, ManageMapping.save_mappings.
  destruct (mapping_file fs) as [m|] eqn:Hfile; [|by repeat split; right].
  destruct (Pickle.user_mapping m) as [um|]; repeat split.
  - destruct (um !! mongo_id); [by left|].
    destruct (ManageMapping.max_index um) as [mx|]; [|by right].
    left. by destruct (mx <? user_index).
  - destruct (ManageMapping.add_bulk_loop _ _ _ _) as [[um' out] [e|]];
      [by right|by left].
  - by destruct (um !! mongo_id).
  - by right.
  - destruct mongo_ids; [by left|by right].
Qed.

(** X3. On a stored user mapping that is empty, [add_user] raises the
    [ValueError] of [max] on an empty sequence, prints nothing and saves
    nothing. *)
Theorem add_user_on_empty_mapping (fs : Files) (m : Pickle.mappings)
    (mongo_id : string) (user_index : Z) :
  mapping_file fs = Some m →
  Pickle.user_mapping m = Some ∅ →
  ManageMapping.add_user mongo_id user_index fs = ManageMapping.Run fs [] (Some ValueError).
Proof.
  intros Hfile Hum. unfold ManageMapping.add_user, ManageMapping.load_mappings.
  rewrite Hfile, Hum, lookup_empty. unfold ManageMapping.max_index.
  by rewrite map_to_list_empty.
Qed.

(** X4. On a stored user mapping that is empty, [add_bulk] with at least
    one identifier raises [ZeroDivisionError] at the first one, prints
    nothing and saves nothing. *)
Theorem add_bulk_on_empty_mapping_raises (fs : Files) (m : Pickle.mappings)
    (mongo_id : string) (rest : list string) (start_index : Z) :
  mapping_file fs = Some m →
  Pickle.user_mapping m = Some ∅ →
  ManageMapping.add_bulk (mongo_id :: rest) start_index fs =
    ManageMapping.Run fs [] (Some ZeroDivisionError).
Proof.
  intros Hfile Hum. unfold ManageMapping.add_bulk, ManageMapping.load_mappings.
  rewrite Hfile, Hum. unfold enumerate. simpl.
  by rewrite lookup_empty, map_size_empty.
Qed.

(** X5. [add_user] never raises the largest user index: after a new
    identifier is added to a mapping that is not empty, the largest mapped
    index is the same as before. *)
Theorem add_user_keeps_max_index (fs : Files) (m : Pickle.mappings)
    (um : gmap string Z) (mongo_id : string) (user_index : Z) :
  mapping_file fs = Some m →
  Pickle.user_mapping m = Some um →
  um !! mongo_id = None →
  um ≠ ∅ →
  ∃ um',
    stored_user_mapping
      (ManageMapping.files (ManageMapping.add_user mongo_id user_index fs)) = Some um' ∧
    um' !! mongo_id ≠ None ∧
    ∀ mx, is_max_index um mx → is_max_index um' mx.
Proof.
  intros Hfile Hum Hid Hne.
  destruct (max_index_spec um Hne) as (mx0 & Hmx0 & [[k0 Hk0] Hle0]).
  unfold ManageMapping.add_user, ManageMapping.load_mappings,
    ManageMapping.save_mappings.
  rewrite Hfile, Hum, Hid, Hmx0.
  set (v := if mx0 <? user_index then mx0 else user_index).
  assert (v <= mx0) as Hv by (unfold v; destruct (Z.ltb_spec mx0 user_index); lia).
  exists (<[mongo_id := v]> um). split; [by unfold v; destruct (mx0 <? user_index)|].
  split; [by rewrite lookup_insert_eq|].
  intros mx [[k Hk] Hle].
  assert (mx = mx0) as -> by (pose proof (Hle _ _ Hk0); pose proof (Hle0 _ _ Hk); lia).
  split.
  - exists k0. rewrite lookup_insert_ne; [done|]. intros ->. congruence.
  - intros k' v' Hk'. apply lookup_insert_Some in Hk' as [[_ <-]|[_ Hk']]; [done|].
    by eapply Hle0.
Qed.

(** X6. What [add_user] stores can be read back: after any run of
    [add_user] that does not raise, [check_user] finds the identifier with
    the index the mapping file now holds for it. *)
Theorem add_user_then_check_user (fs : Files) (mongo_id : string) (user_index : Z) :
  ManageMapping.raised (ManageMapping.add_user mongo_id user_index fs) = None →
  ∃ um' idx,
    stored_user_mapping
      (ManageMapping.files (ManageMapping.add_user mongo_id user_index fs)) = Some um' ∧
    um' !! mongo_id = Some idx ∧
    ManageMapping.check_user mongo_id
      (ManageMapping.files (ManageMapping.add_user mongo_id user_index fs)) =
    ManageMapping.Run
      (ManageMapping.files (ManageMapping.add_user mongo_id user_index fs))
      [Found mongo_id idx] None.
Proof.
  unfold ManageMapping.add_user, ManageMapping.check_user, ManageMapping.load_mappings,
    ManageMapping.save_mappings, stored_user_mapping.
  destruct (mapping_file fs) as [m|] eqn:Hfile; [|done].
  destruct (Pickle.user_mapping m) as [um|] eqn:Hum; [|done].
  destruct (um !! mongo_id) as [i|] eqn:Hid.
  - intros _. exists um, i. simpl. by rewrite Hfile, Hum, Hid.
  - destruct (ManageMapping.max_index um) as [mx|]; [|done]. intros _.
    destruct (mx <? user_index); simpl.
    + exists (<[mongo_id := mx]> um), mx. by rewrite !lookup_insert_eq.
    + exists (<[mongo_id := user_index]> um), user_index.
      by rewrite !lookup_insert_eq.
Qed.

(** X7. [add_user] touches one entry only: every other identifier keeps
    the index the mapping file gave it, and the two movie tables of the
    file stay as they were. *)
Theorem add_user_touches_one_entry (fs : Files) (mongo_id other : string)
    (user_index : Z) :
  other ≠ mongo_id →
  (stored_user_mapping
     (ManageMapping.files (ManageMapping.add_user mongo_id user_index fs))
     ≫= (λ um, um !! other)) =
  (stored_user_mapping fs ≫= (λ um, um !! other)) ∧
  (mapping_file (ManageMapping.files (ManageMapping.add_user mongo_id user_index fs))
     ≫= Pickle.movie_mapping) = (mapping_file fs ≫= Pickle.movie_mapping) ∧
  (mapping_file (ManageMapping.files (ManageMapping.add_user mongo_id user_index fs))
     ≫= Pickle.reverse_movie_mapping) =
  (mapping_file fs ≫= Pickle.reverse_movie_mapping).
Proof.
  intros Hne. unfold ManageMapping.add_user, ManageMapping.load_mappings,
    ManageMapping.save_mappings, stored_user_mapping.
  destruct (mapping_file fs) as [m|] eqn:Hfile; [|by simpl; rewrite Hfile].
  destruct (Pickle.user_mapping m) as [um|] eqn:Hum;
    [|by simpl; rewrite Hfile; simpl; rewrite Hum].
  destruct (um !! mongo_id); [by simpl; rewrite Hfile; simpl; rewrite Hum|].
  destruct (ManageMapping.max_index um) as [mx|];
    [|by simpl; rewrite Hfile; simpl; rewrite Hum].
  destruct (mx <? user_index); simpl; rewrite Hum; simpl;
    by rewrite lookup_insert_ne.
Qed.

Lemma add_bulk_loop_bounds (start_index : Z) (pending : list (Z * string))
    (um um' : gmap string Z) (out out' : list msg) (err : option exn) :
  ManageMapping.add_bulk_loop start_index pending um out = (um', out', err) →
  um ⊆ um' ∧
  ∀ k v, um' !! k = Some v →
         um !! k = Some v ∨ (0 <= v < Z.of_nat (size um')).
Proof.
  revert um out. induction pending as [|[i id] pending IH]; intros um out H; simpl in H.
  - injection H as <- _ _. split; [done|]. by left.
  - destruct (um !! id) as [w|] eqn:Hid; [by eapply IH|].
    destruct (Z.eqb_spec (Z.of_nat (size um)) 0) as [|Hsize].
    + injection H as <- _ _. split; [done|]. by left.
    + apply IH in H as [Hsub Hb]. split.
      * etrans; [|exact Hsub]. by apply insert_subseteq.
      * intros k v Hk. destruct (Hb k v Hk) as [Hin|Hin]; [|by right].
        apply lookup_insert_Some in Hin as [[_ <-]|[_ Hin]]; [|by left].
        right. apply map_subseteq_size in Hsub.
        rewrite map_size_insert_None in Hsub by done.
        pose proof (Z.mod_pos_bound (start_index + i) (Z.of_nat (size um))). lia.
Qed.

(** X8. Every index that [add_bulk] leaves in the stored user mapping is
    either the index the identifier already had, or a number from 0 up to,
    but not including, the number of users now mapped. *)
Theorem add_bulk_index_bounds (fs : Files) (m : Pickle.mappings) (um um' : gmap string Z)
    (mongo_ids : list string) (start_index : Z) :
  mapping_file fs = Some m →
  Pickle.user_mapping m = Some um →
  stored_user_mapping
    (ManageMapping.files (ManageMapping.add_bulk mongo_ids start_index fs)) = Some um' →
  um ⊆ um' ∧
  ∀ k v, um' !! k = Some v →
         um !! k = Some v ∨ (0 <= v < Z.of_nat (size um')).
Proof.
  intros Hfile Hum. unfold ManageMapping.add_bulk, ManageMapping.load_mappings,
    ManageMapping.save_mappings, stored_user_mapping.
  rewrite Hfile, Hum.
  destruct (ManageMapping.add_bulk_loop start_index (enumerate mongo_ids) um [])
    as [[um1 out] [e|]] eqn:Hloop; simpl.
  - rewrite Hfile. simpl. rewrite Hum. intros [= <-]. split; [done|]. by left.
  - intros [= <-]. by eapply add_bulk_loop_bounds.
Qed.

(** * Further properties of the mapping generation *)

(** The loop of lines 39-41 and 45-46, started at index [n] on a mapping
    [acc]: a key that occurs in the list ends with the index of one of its
    occurrences, any other key is left alone. *)
Lemma index_loop_lookup (l : list GenerateMapping.db_value) (n : Z)
    (acc : gmap string Z) (k : string) :
  let result :=
    fold_left (λ um '(idx, user_id), <[GenerateMapping.str user_id := idx]> um)
              (enumerate_from n l) acc in
  (k ∈ GenerateMapping.str <$> l →
   ∃ i v, result !! k = Some i ∧ n <= i < n + Z.of_nat (length l) ∧
          l !! Z.to_nat (i - n) = Some v ∧ GenerateMapping.str v = k) ∧
  (k ∉ GenerateMapping.str <$> l → result !! k = acc !! k).
Proof.
  revert n acc. induction l as [|x l IH]; intros n acc; simpl.
  - split; [|done]. intros H. by apply elem_of_nil in H.
  - destruct (IH (n + 1) (<[GenerateMapping.str x := n]> acc)) as [IH1 IH2].
    split.
    + intros Hin. destruct (decide (k ∈ GenerateMapping.str <$> l)) as [Hl|Hl].
      * destruct (IH1 Hl) as (i & v & Hi & Hrange & Hv & Hstr).
        exists i, v. repeat split; [done|lia|lia| |done].
        replace (Z.to_nat (i - n)) with (S (Z.to_nat (i - (n + 1)))) by lia.
        exact Hv.
      * apply elem_of_cons in Hin as [->|Hin]; [|done].
        exists n, x. rewrite (IH2 Hl), lookup_insert_eq.
        repeat split; [lia|lia|].
        by replace (Z.to_nat (n - n)) with 0%nat by lia.
    + intros Hnotin. apply not_elem_of_cons in Hnotin as [Hne Hnotin].
      rewrite (IH2 Hnotin). by apply lookup_insert_ne.
Qed.

(** The movie mapping is built by the same loop as the user mapping. *)
Lemma movie_loop_fst (l : list (Z * GenerateMapping.db_value))
    (acc : gmap string Z * gmap Z string) :
  (fold_left GenerateMapping.movie_step l acc).1 =
  fold_left (λ um '(idx, user_id), <[GenerateMapping.str user_id := idx]> um) l acc.1.
Proof.
  revert acc. induction l as [|[i x] l IH]; intros [mm rm]; simpl; [done|].
  by rewrite IH.
Qed.

(** The reverse table after the loop: position [i - n] of the list for
    the indices the loop went through, the old entry elsewhere. *)
Lemma movie_loop_snd (l : list GenerateMapping.db_value) (n : Z)
    (acc : gmap string Z * gmap Z string) (i : Z) :
  (fold_left GenerateMapping.movie_step (enumerate_from n l) acc).2 !! i =
  if decide (n <= i < n + Z.of_nat (length l))
  then GenerateMapping.str <$> l !! Z.to_nat (i - n)
  else acc.2 !! i.
Proof.
  revert n acc. induction l as [|x l IH]; intros n [mm rm]; simpl.
  - by rewrite decide_False by lia.
  - rewrite IH. simpl. destruct (decide (n = i)) as [<-|Hne].
    + rewrite decide_False by lia. rewrite lookup_insert_eq, decide_True by lia.
      by replace (Z.to_nat (n - n)) with 0%nat by lia.
    + rewrite lookup_insert_ne by done.
      destruct (decide (n + 1 <= i < n + 1 + Z.of_nat (length l))).
      * rewrite decide_True by lia.
        by replace (Z.to_nat (i - n)) with (S (Z.to_nat (i - (n + 1)))) by lia.
      * by rewrite decide_False by lia.
Qed.

Lemma sorted_by_str_perm (values : list GenerateMapping.db_value) :
  GenerateMapping.sorted_by_str values ≡ₚ values.
Proof. apply stable_sort_perm. Qed.

(** X9. Every user value the database returned is a key of the generated
    user mapping, with an index from 0 up to, but not including, the
    number of values; and every index of the mapping is in that range. *)
Theorem generated_users_all_mapped (unique_users : list GenerateMapping.db_value)
    (v : GenerateMapping.db_value) :
  v ∈ unique_users →
  (∃ i, GenerateMapping.build_user_mapping unique_users !! GenerateMapping.str v = Some i) ∧
  ∀ k i, GenerateMapping.build_user_mapping unique_users !! k = Some i →
         0 <= i < Z.of_nat (length unique_users).
Proof.
  intros Hv. unfold GenerateMapping.build_user_mapping, enumerate.
  pose proof (sorted_by_str_perm unique_users) as Hperm.
  split.
  - destruct (index_loop_lookup (GenerateMapping.sorted_by_str unique_users) 0 ∅
                (GenerateMapping.str v)) as [H1 _].
    destruct H1 as (i & _ & Hi & _); [|by exists i].
    apply list_elem_of_fmap_2. by rewrite Hperm.
  - intros k i Hk.
    destruct (index_loop_lookup (GenerateMapping.sorted_by_str unique_users) 0 ∅ k)
      as [H1 H2].
    destruct (decide (k ∈ GenerateMapping.str <$>
                        GenerateMapping.sorted_by_str unique_users)) as [Hin|Hin].
    + destruct (H1 Hin) as (i' & _ & Hi' & Hrange & _).
      apply Permutation_length in Hperm. simpl in Hi'. rewrite Hi' in Hk.
      injection Hk as <-. lia.
    + rewrite (H2 Hin), lookup_empty in Hk. done.
Qed.

(** X10. The generated reverse table is dense: it has an entry exactly
    for the indices from 0 up to, but not including, the number of movie
    values the database returned. *)
Theorem generated_reverse_table_dense (unique_movies : list GenerateMapping.db_value)
    (idx : Z) :
  is_Some ((GenerateMapping.build_movie_mappings unique_movies).2 !! idx) ↔
  0 <= idx < Z.of_nat (length unique_movies).
Proof.
  unfold GenerateMapping.build_movie_mappings, enumerate.
  rewrite movie_loop_snd. simpl.
  pose proof (Permutation_length (sorted_by_str_perm unique_movies)) as Hlen.
  destruct (decide _) as [Hin|Hout].
  - split; [lia|]. intros _.
    destruct (lookup_lt_is_Some_2 (GenerateMapping.sorted_by_str unique_movies)
                (Z.to_nat (idx - 0))) as [v Hv]; [lia|].
    rewrite Hv. by eexists.
  - rewrite lookup_empty. split; [by intros [? ?]|lia].
Qed.

(** X11. Every movie value the database returned is a key of the generated
    movie mapping, and the index the mapping gives it leads back to its
    string in the reverse table. *)
Theorem generated_movies_round_trip (unique_movies : list GenerateMapping.db_value)
    (v : GenerateMapping.db_value) :
  v ∈ unique_movies →
  ∃ i,
    (GenerateMapping.build_movie_mappings unique_movies).1 !! GenerateMapping.str v
      = Some i ∧
    (GenerateMapping.build_movie_mappings unique_movies).2 !! i
      = Some (GenerateMapping.str v).
Proof.
  intros Hv. unfold GenerateMapping.build_movie_mappings, enumerate.
  destruct (index_loop_lookup (GenerateMapping.sorted_by_str unique_movies) 0 ∅
              (GenerateMapping.str v)) as [H1 _].
  destruct H1 as (i & w & Hi & Hrange & Hw & Hstr).
  { apply list_elem_of_fmap_2. by rewrite sorted_by_str_perm. }
  exists i. rewrite movie_loop_fst, movie_loop_snd. simpl.
  split; [exact Hi|]. rewrite decide_True by lia. by rewrite Hw, <- Hstr.
Qed.

Lemma string_leb_trans (s1 s2 s3 : string) :
  String.leb s1 s2 = true → String.leb s2 s3 = true → String.leb s1 s3 = true.
Proof.
  unfold String.leb. intros H12 H23.
  destruct (String.compare s1 s2) eqn:E12; [| |done].
  - apply OrderedTypeEx.String_as_OT.cmp_eq in E12 as ->. exact H23.
  - destruct (String.compare s2 s3) eqn:E23; [| |done].
    + apply OrderedTypeEx.String_as_OT.cmp_eq in E23 as <-. by rewrite E12.
    + apply OrderedTypeEx.String_as_OT.cmp_lt in E12, E23.
      pose proof (OrderedTypeEx.String_as_OT.lt_trans _ _ _ E12 E23) as E13.
      apply OrderedTypeEx.String_as_OT.cmp_lt in E13.
      unfold OrderedTypeEx.String_as_OT.cmp in E13. by rewrite E13.
Qed.

Lemma NoDup_fmap_eq {A B} (f : A → B) (l : list A) (x y : A) :
  NoDup (f <$> l) → x ∈ l → y ∈ l → f x = f y → x = y.
Proof.
  induction l as [|a l IH]; simpl; intros Hnd Hx Hy Hf.
  - by apply elem_of_nil in Hx.
  - apply NoDup_cons in Hnd as [Hnotin Hnd].
    apply elem_of_cons in Hx as [->|Hx]; apply elem_of_cons in Hy as [->|Hy].
    + done.
    + exfalso. apply Hnotin. rewrite Hf. by apply list_elem_of_fmap_2.
    + exfalso. apply Hnotin. rewrite <- Hf. by apply list_elem_of_fmap_2.
    + by apply IH.
Qed.

Lemma sorted_by_str_unique (l1 l2 : list GenerateMapping.db_value) :
  l1 ≡ₚ l2 →
  NoDup (GenerateMapping.str <$> l1) →
  GenerateMapping.sorted_by_str l1 = GenerateMapping.sorted_by_str l2.
Proof.
  intros Hperm Hnd.
  set (leb := λ a b, String.leb (GenerateMapping.str a) (GenerateMapping.str b)).
  assert (Htot : ∀ x y, leb x y = true ∨ leb y x = true)
    by (intros; apply String.leb_total).
  assert (Htrans : ∀ x y z, leb x y = true → leb y z = true → leb x z = true)
    by (intros x y z; apply string_leb_trans).
  apply (StronglySorted_unique_strong (λ a b, leb a b = true)).
  - intros x1 x2 Hx1 Hx2 H12 H21.
    unfold GenerateMapping.sorted_by_str in Hx1, Hx2.
    rewrite stable_sort_perm in Hx1, Hx2.
    rewrite <- Hperm in Hx2.
    apply (NoDup_fmap_eq GenerateMapping.str l1); [done..|].
    by apply String.leb_antisym.
  - by apply stable_sort_strongly.
  - by apply stable_sort_strongly.
  - by rewrite !sorted_by_str_perm.
Qed.

(** X12. The generated file does not depend on the order in which the
    database returns the distinct values, as long as no two of them print
    the same string. *)
Theorem generate_mappings_order_independent
    (users1 users2 movies1 movies2 : list GenerateMapping.db_value) (fs : Files) :
  users1 ≡ₚ users2 →
  movies1 ≡ₚ movies2 →
  NoDup (GenerateMapping.str <$> users1) →
  NoDup (GenerateMapping.str <$> movies1) →
  GenerateMapping.generate_mappings users1 movies1 fs =
  GenerateMapping.generate_mappings users2 movies2 fs.
Proof.
  intros Hu Hm Hndu Hndm.
  unfold GenerateMapping.generate_mappings, GenerateMapping.build_user_mapping,
    GenerateMapping.build_movie_mappings.
  by rewrite (sorted_by_str_unique users1 users2),
             (sorted_by_str_unique movies1 movies2).
Qed.

(** * Further properties of the service *)

Section service_more.
Context {T : Torch}.
Import App.

(** ** Loading *)

Lemma load_mapping_tables_done (fs : Files) (st st' : globals) :
  load_mapping_tables fs st = (st', None) →
  model st' = model st ∧
  ∃ mp, mapping_file fs = Some mp ∧
        Pickle.user_mapping mp = Some (user_mapping st') ∧
        Pickle.movie_mapping mp = Some (movie_mapping st') ∧
        Pickle.reverse_movie_mapping mp = Some (reverse_movie_mapping st').
Proof.
  unfold load_mapping_tables. intros H.
  destruct (mapping_file fs) as [mp|]; [|done].
  destruct (Pickle.user_mapping mp) as [um|] eqn:Hum; [|done].
  destruct (Pickle.movie_mapping mp) as [mm|] eqn:Hmm; [|done].
  destruct (Pickle.reverse_movie_mapping mp) as [rm|] eqn:Hrm; [|done].
  injection H as <-. simpl. split; [done|]. by exists mp.
Qed.

(** X13. A [load_model] that does not raise installs a model object whose
    cache is cleared, together with the three tables of the mapping file. *)
Theorem successful_load_installs_file (model_file : option checkpoint) (fs : Files)
    (st st' : globals) :
  load_model model_file fs st = (st', None) →
  ∃ m mp,
    model st' = Some (ModelObject m) ∧
    _cache_valid m = false ∧ cached_users m = None ∧ cached_items m = None ∧
    mapping_file fs = Some mp ∧
    Pickle.user_mapping mp = Some (user_mapping st') ∧
    Pickle.movie_mapping mp = Some (movie_mapping st') ∧
    Pickle.reverse_movie_mapping mp = Some (reverse_movie_mapping st').
Proof.
  unfold load_model. intros H.
  destruct model_file as [[[c|] sd|m| |raised sd]|]; try done.
  - destruct (load_state_dict (init c) sd) as [m [err|]]; [done|].
    apply load_mapping_tables_done in H as (Hm & mp & Hmp).
    exists (clear_cache m), mp. by rewrite Hm.
  - apply load_mapping_tables_done in H as (Hm & mp & Hmp).
    exists (clear_cache m), mp. by rewrite Hm.
Qed.

Lemma load_param_ok {A} (shape_ok : A → bool) (current : A) (entry : option A) (v : A) :
  load_param shape_ok current entry = (v, true) →
  entry = Some v ∧ shape_ok v = true.
Proof.
  unfold load_param. destruct entry as [w|]; [|done].
  destruct (shape_ok w) eqn:Hok; [|done]. by intros [= <-].
Qed.

(** What a [load_state_dict] that does not raise has done. *)
Lemma load_state_dict_done (self m : ImprovedLightGCN) (sd : state_dict) :
  load_state_dict self sd = (m, None) →
  sd_user_embedding sd = Some (user_embedding m) ∧
  sd_item_embedding sd = Some (item_embedding m) ∧
  has_shape (num_users m) (embedding_dim m) (user_embedding m) = true ∧
  has_shape (num_items m) (embedding_dim m) (item_embedding m) = true ∧
  num_users m = num_users self ∧ num_items m = num_items self ∧
  embedding_dim m = embedding_dim self ∧
  Graph m = Graph self ∧ _cache_valid m = _cache_valid self.
Proof.
  unfold load_state_dict. intros H.
  destruct (load_param (has_shape _ _) (user_embedding self) _) as [ue ok_u] eqn:Hu.
  destruct (load_param (has_shape _ _) (item_embedding self) _) as [ie ok_i] eqn:Hi.
  destruct (match layer_attention self with Some _ => _ | None => _ end) as [la ok_a].
  destruct ok_u; [|done]. destruct ok_i; [|done]. destruct ok_a; [|done].
  apply load_param_ok in Hu as [Hu1 Hu2]. apply load_param_ok in Hi as [Hi1 Hi2].
  injection H as <-. simpl. done.
Qed.


(** ** The cache *)

Lemma ensure_cache_again (m : ImprovedLightGCN) :
  ensure_cache (ensure_cache m).1 = ensure_cache m.
Proof.
  unfold ensure_cache. destruct (_cache_valid m) eqn:Hvalid; simpl.
  - by rewrite Hvalid.
  - destruct (computer m) as [e|[users items]] eqn:Hc; simpl.
    + by rewrite Hvalid, Hc.
    + done.
Qed.

Lemma recommend_for_state (m : ImprovedLightGCN) rmm (user_idx k : Z) :
  (recommend_for m rmm user_idx k).2 = (ensure_cache m).1.
Proof.
  unfold recommend_for. destruct (ensure_cache m) as [m' [e|]]; [done|].
  by destruct (user_scores m' user_idx).
Qed.

Lemma recommend_for_cached (m : ImprovedLightGCN) rmm (user_idx k : Z) :
  recommend_for (ensure_cache m).1 rmm user_idx k = recommend_for m rmm user_idx k.
Proof.
  unfold recommend_for. rewrite ensure_cache_again.
  by destruct (ensure_cache m) as [m' [e|]].
Qed.

(** The globals a request leaves behind: the same, or the same with the
    cache of the model filled. *)
Lemma get_recommendations_state (request : RecommendationRequest) (st : globals) :
  (get_recommendations request st).2 = st ∨
  ∃ m, model st = Some (ModelObject m) ∧
       (get_recommendations request st).2 =
         set_model (ModelObject (ensure_cache m).1) st.
Proof.
  unfold get_recommendations. destruct (model st) as [[m|]|] eqn:Hm; [| |by left].
  2: { left. by destruct (user_mapping st !! req_user_id request). }
  destruct (user_mapping st !! req_user_id request) as [idx|]; [|by left].
  right. exists m. split; [done|].
  pose proof (recommend_for_state m (reverse_movie_mapping st) idx (top_k request)) as Hst.
  destruct (recommend_for m _ idx _) as [r m']. simpl in *. by rewrite Hst.
Qed.

Lemma get_recommendations_after (r1 r2 : RecommendationRequest) (st : globals) :
  get_recommendations r2 (get_recommendations r1 st).2 =
  ((get_recommendations r2 st).1,
   (get_recommendations r2 (get_recommendations r1 st).2).2) ∧
  (get_recommendations r1 (get_recommendations r1 st).2).2 =
  (get_recommendations r1 st).2.
Proof.
  destruct (get_recommendations_state r1 st) as [Hsame|(m & Hm & ->)].
  - rewrite !Hsame. split; [by destruct (get_recommendations r2 st)|done].
  - assert (Hstep : ∀ r, get_recommendations r (set_model (ModelObject (ensure_cache m).1) st)
              = ((get_recommendations r st).1,
                 set_model (ModelObject (ensure_cache m).1) st)).
    { intros r. unfold get_recommendations. rewrite Hm. simpl.
      destruct (user_mapping st !! req_user_id r) as [idx|]; [|done].
      rewrite recommend_for_cached.
      pose proof (recommend_for_state m (reverse_movie_mapping st) idx (top_k r)) as Hst.
      destruct (recommend_for m _ idx _) as [res m']. simpl in *. subst m'.
      done. }
    split; by rewrite Hstep.
Qed.

(** X15. Serving a request never changes the answer to any request that
    follows: the only thing a request leaves behind is the filled cache,
    and a second run of the same request leaves the globals as the first
    did. *)
Theorem requests_do_not_interfere (r1 r2 : RecommendationRequest) (st : globals) :
  (get_recommendations r2 (get_recommendations r1 st).2).1 =
    (get_recommendations r2 st).1 ∧
  (get_recommendations r1 (get_recommendations r1 st).2).2 =
    (get_recommendations r1 st).2.
Proof.
  destruct (get_recommendations_after r1 r2 st) as [H1 H2].
  split; [by rewrite H1|exact H2].
Qed.

Lemma batch_loop_lookup (user_ids : list string) (k : Z)
    (results : gmap string (HTTPException + list recommendation)) (st : globals)
    (uid : string) :
  (batch_loop user_ids k results st).1 !! uid =
  if decide (uid ∈ user_ids)
  then Some (batch_entry (get_recommendations (Request uid k) st).1)
  else results !! uid.
Proof.
  revert results st. induction user_ids as [|u rest IH]; intros results st.
  - destruct (decide (uid ∈ [])) as [Hin|_]; [by apply elem_of_nil in Hin|done].
  - cbn [batch_loop].
    destruct (get_recommendations (Request u k) st) as [r st1] eqn:Hr.
    rewrite IH. destruct (decide (uid ∈ rest)) as [Hin|Hnotin].
    + destruct (decide (uid ∈ u :: rest)) as [_|Hout]; [|by destruct Hout; right].
      destruct (get_recommendations_after (Request u k) (Request uid k) st) as [H _].
      rewrite Hr in H. simpl in H. by rewrite H.
    + destruct (decide (u = uid)) as [->|Hne].
      * destruct (decide (uid ∈ uid :: rest)) as [_|Hout]; [|by destruct Hout; left].
        by rewrite lookup_insert_eq, Hr.
      * rewrite lookup_insert_ne by done.
        destruct (decide (uid ∈ u :: rest)) as [Hin|_]; [|done].
        apply elem_of_cons in Hin as [->|Hin]; done.
Qed.

(** X16. [batch_recommendations] never raises, its dictionary has exactly
    the requested user ids as keys, and the value of each is what a single
    [get_recommendations] for that user returns on the same globals: the
    recommendation list, or the error. *)
Theorem batch_matches_single (user_ids : list string) (k : Z) (st : globals)
    (uid : string) :
  (batch_recommendations user_ids k st).1 !! uid =
  if decide (uid ∈ user_ids)
  then Some (batch_entry (get_recommendations (Request uid k) st).1)
  else None.
Proof.
  unfold batch_recommendations. rewrite batch_loop_lookup.
  by destruct (decide (uid ∈ user_ids)).
Qed.

(** X17. [health_check] and [root] report the model as loaded exactly when
    [get_recommendations] does not answer "Model not loaded": the flag
    only says that the global is bound, also when it is bound to an object
    that is not a model. *)
Theorem health_matches_model_check (st : globals) :
  (health_model_loaded (health_check st) = false ↔
   ∀ request, (get_recommendations request st).1 = inl (HTTPError 500 ModelNotLoaded)) ∧
  model_loaded (root st) = health_model_loaded (health_check st).
Proof.
  split; [|done]. unfold health_check, model_is_loaded, get_recommendations. simpl.
  destruct (model st) as [obj|]; split; try done.
  intros H. specialize (H (Request EmptyString 0)). simpl in H.
  destruct (user_mapping st !! EmptyString) as [idx|]; [|done].
  destruct obj as [m|]; [|done].
  destruct (recommend_for m (reverse_movie_mapping st) idx 0) as [[e|recs] m']; done.
Qed.

(** X18. Two users mapped to the same index are served alike: the same
    recommendation list or the same error, and the same globals
    afterwards. *)
Theorem same_index_same_recommendations (st : globals) (u1 u2 : string) (idx k : Z) :
  user_mapping st !! u1 = Some idx →
  user_mapping st !! u2 = Some idx →
  batch_entry (get_recommendations (Request u1 k) st).1 =
    batch_entry (get_recommendations (Request u2 k) st).1 ∧
  (get_recommendations (Request u1 k) st).2 = (get_recommendations (Request u2 k) st).2.
Proof.
  intros H1 H2. unfold get_recommendations. simpl. rewrite H1, H2.
  destruct (model st) as [[m|]|]; [|done..].
  by destruct (recommend_for m (reverse_movie_mapping st) idx k) as [[e|recs] m'].
Qed.

(** ** The embedding computation *)

(** X19. The loop of [computer] collects one layer more than [n_layers],
    the first being the raw input. *)
Theorem propagate_layers (g : graph) (layers : nat) (all_emb : tensor)
    (embs : list tensor) :
  propagate g layers all_emb = inr embs →
  length embs = S layers ∧ head embs = Some all_emb.
Proof.
  revert all_emb embs. induction layers as [|n IH]; intros all_emb embs; simpl.
  - by intros [= <-].
  - destruct (sparse_mm g all_emb) as [e|next]; [done|].
    destruct (propagate g n next) as [e|rest] eqn:Hrest; [done|].
    intros [= <-]. apply IH in Hrest as [Hlen _]. simpl. by rewrite Hlen.
Qed.

(** X20. With a propagation graph, whatever the numeric kernels return,
    a [computer] that does not raise gives a user table of [num_users] rows
    and an item table of [num_items] rows. *)
Theorem computer_with_graph_shapes (self : ImprovedLightGCN) (g : graph)
    (users items : tensor) :
  Graph self = Some g →
  computer self = inr (users, items) →
  length users = num_users self ∧ length items = num_items self.
Proof.
  unfold computer. intros -> H.
  destruct (propagate g (n_layers self) _) as [e|embs]; [done|].
  destruct (if use_layer_attention self then _ else _) as [e|final_emb];
    [discriminate H|].
  unfold split in H. case_match eqn:Hrows; [|done].
  apply Nat.eqb_eq in Hrows. injection H as <- <-.
  rewrite length_take, length_drop. lia.
Qed.


End service_more.

(** ** Scoring *)

Lemma has_shape_spec {T : Torch} (rows cols : nat) (t : App.tensor) :
  App.has_shape rows cols t = true →
  length t = rows ∧ ∀ r, r ∈ t → length r = cols.
Proof.
  unfold App.has_shape. intros H. apply andb_true_iff in H as [Hrows Hcols].
  apply Nat.eqb_eq in Hrows. split; [done|]. intros r Hr.
  rewrite forallb_forall in Hcols. apply Nat.eqb_eq, Hcols. by apply list_elem_of_In.
Qed.

Lemma tensor_row_ok {T : Torch} (t : App.tensor) (i : Z) :
  - Z.of_nat (length t) <= i < Z.of_nat (length t) →
  ∃ r, App.tensor_row t i = inr r ∧ r ∈ t.
Proof.
  intros Hi. unfold App.tensor_row. set (n := Z.of_nat (length t)) in *.
  set (j := if i <? 0 then i + n else i).
  assert (Hj : 0 <= j < n) by (unfold j; destruct (Z.ltb_spec i 0); lia).
  rewrite (proj2 (Z.leb_le 0 j)), (proj2 (Z.ltb_lt j n)) by lia. simpl.
  destruct (t !! Z.to_nat j) as [r|] eqn:Hr.
  - exists r. split; [done|]. by eapply list_elem_of_lookup_2.
  - apply lookup_ge_None in Hr. unfold n in Hj. lia.
Qed.

Lemma length_omap_total {A B} (f : A → option B) (l : list A) :
  Forall (λ x, is_Some (f x)) l → length (omap f l) = length l.
Proof.
  induction 1 as [|x l [y Hy] _ IH]; csimpl; [done|]. rewrite Hy. csimpl. by rewrite IH.
Qed.

Lemma NoDup_fmap_omap {A B C} (f : A → option B) (g : B → C) (l : list A) :
  NoDup l →
  (∀ x y b1 b2, f x = Some b1 → f y = Some b2 → g b1 = g b2 → x = y) →
  NoDup (g <$> omap f l).
Proof.
  intros Hnd Hinj. induction Hnd as [|x l Hx Hnd IH]; csimpl; [constructor|].
  destruct (f x) as [b|] eqn:Hb; csimpl; [|exact IH].
  constructor; [|exact IH]. intros Hin.
  apply list_elem_of_fmap in Hin as (b' & Hg & Hb').
  apply list_elem_of_omap in Hb' as (y & Hy & Hfy).
  assert (x = y) as -> by by eapply Hinj. done.
Qed.

Section scoring_more.
Context {T : Torch} `{!TorchLaws T}.
Import App.

Lemma reversed_argsort_descending (scores : list scalar) :
  StronglySorted (flip (score_le scores)) (reverse (argsort scores)).
Proof.
  apply StronglySorted_reverse, lookup_StronglySorted.
  intros i j p q Hij Hp Hq x y Hx Hy. by eapply argsort_ascending.
Qed.

Lemma length_top_indices (scores : list scalar) (k : Z) :
  length (top_indices scores k) = slice_length k (length scores).
Proof.
  unfold top_indices, slice_to, slice_length.
  assert (length (reverse (argsort scores)) = length scores) as Hlen
    by by rewrite length_reverse, argsort_perm, length_seq.
  destruct (Z.leb_spec 0 k); rewrite length_take, Hlen; lia.
Qed.

(** A model that is shaped as it declares, has no graph and no valid
    cache, serves every index of its user table. *)
Lemma well_shaped_model_serves (m : ImprovedLightGCN) (rmm : gmap Z string)
    (user_idx k : Z) :
  Graph m = None →
  _cache_valid m = false →
  has_shape (num_users m) (embedding_dim m) (user_embedding m) = true →
  has_shape (num_items m) (embedding_dim m) (item_embedding m) = true →
  - Z.of_nat (num_users m) <= user_idx < Z.of_nat (num_users m) →
  ∃ recs, (recommend_for m rmm user_idx k).1 = inr recs.
Proof.
  intros Hg Hvalid Hu Hi Hidx.
  apply has_shape_spec in Hu as [Hrows Hucols]. apply has_shape_spec in Hi as [_ Hicols].
  unfold recommend_for, ensure_cache, computer. rewrite Hvalid, Hg.
  unfold user_scores. simpl.
  destruct (tensor_row_ok (user_embedding m) user_idx) as (user_emb & -> & Hin);
    [lia|].
  unfold matmul.
  assert (forallb (λ r : list scalar, (length r =? length user_emb)%nat)
                  (item_embedding m) = true) as ->.
  { apply forallb_forall. intros r Hr. apply Nat.eqb_eq.
    rewrite (Hucols _ Hin). apply Hicols. by apply list_elem_of_In. }
  rewrite convert_omap by apply top_indices_in_range. by eexists.
Qed.

(** X22. After a [load_model] from a checkpoint dictionary that does not
    raise, every mapped user whose index lies within the declared number of
    users (counted from either end) is answered with a response, never
    with an error, whatever [top_k] is. *)
Theorem checkpoint_reload_serves (c : config) (sd : state_dict) (fs : Files)
    (st st' : globals) (uid : string) (user_idx k : Z) :
  load_model (Some (CheckpointDict (Some c) sd)) fs st = (st', None) →
  user_mapping st' !! uid = Some user_idx →
  - Z.of_nat (cfg_num_users c) <= user_idx < Z.of_nat (cfg_num_users c) →
  ∃ recs, (get_recommendations (Request uid k) st').1 = inr (Response uid recs).
Proof.
  unfold load_model. intros Hload Huid Hidx.
  destruct (load_state_dict (init c) sd) as [m [e|]] eqn:Hsd; [done|].
  apply load_mapping_tables_done in Hload as [Hm _]. simpl in Hm.
  apply load_state_dict_done in Hsd
    as (_ & _ & Hu & Hi & Hnu & _ & _ & Hg & _). simpl in Hnu, Hg.
  destruct (well_shaped_model_serves (clear_cache m) (reverse_movie_mapping st')
              user_idx k) as [recs Hrecs]; try done.
  { simpl. lia. }
  exists recs. unfold get_recommendations. rewrite Hm. simpl. rewrite Huid.
  destruct (recommend_for (clear_cache m) _ user_idx k) as [r m'].
  simpl in Hrecs. by rewrite Hrecs.
Qed.

(** X23. [top_k] is not validated.  With [n] items, a successful run
    returns at most [min(top_k, n)] entries for [top_k >= 0] (none for 0)
    and at most [n + top_k] entries for a negative [top_k] (the lowest
    scored items are dropped); it returns exactly that many when every
    item index has a non-empty reverse entry. *)
Theorem recommendation_count (m m' : ImprovedLightGCN) (rmm : gmap Z string)
    (user_idx k : Z) (recs : list recommendation) :
  recommend_for m rmm user_idx k = (inr recs, m') →
  ∃ items,
    cached_items m' = Some items ∧
    (length recs ≤ slice_length k (length items))%nat ∧
    ((∀ idx, (idx < length items)%nat → truthy (rmm !! Z.of_nat idx) = true) →
     length recs = slice_length k (length items)).
Proof.
  intros H. apply recommend_for_inr in H as (scores & _ & Hscores & ->).
  destruct (user_scores_length _ _ _ Hscores) as (items & Hitems & Hlen).
  exists items. split; [done|]. rewrite <- Hlen, <- length_top_indices. split.
  - apply length_omap_le.
  - intros Hdense. apply length_omap_total.
    eapply Forall_impl; [apply (top_indices_in_range scores k)|].
    intros idx Hidx. simpl in Hidx. specialize (Hdense idx ltac:(lia)).
    apply lookup_lt_is_Some in Hidx as [x Hx].
    unfold entry_of. rewrite Hx.
    destruct (rmm !! Z.of_nat idx) as [[|a id]|]; [done| |done]. by eexists.
Qed.

(** X24. The recommended items are the best ones: an item whose index is
    not among the top indices scores no more than any recommended item. *)
Theorem left_out_items_score_no_more (m m' : ImprovedLightGCN) (rmm : gmap Z string)
    (user_idx k : Z) (recs : list recommendation) :
  recommend_for m rmm user_idx k = (inr recs, m') →
  ∃ scores,
    user_scores m' user_idx = inr scores ∧
    ∀ r idx x,
      r ∈ recs → scores !! idx = Some x → idx ∉ top_indices scores k →
      s_leb x (score r) = true.
Proof.
  intros H. apply recommend_for_inr in H as (scores & _ & Hscores & ->).
  exists scores. split; [done|]. intros r idx x Hr Hx Hout.
  apply list_elem_of_omap in Hr as (top & Htop & Hr).
  apply entry_of_Some in Hr as [_ Hr].
  unfold top_indices in Htop, Hout.
  destruct (slice_to_take k (reverse (argsort scores))) as [n Hn].
  rewrite Hn in Htop, Hout.
  assert (idx ∈ reverse (argsort scores)) as Hin.
  { rewrite elem_of_reverse, argsort_perm. apply elem_of_seq.
    apply lookup_lt_Some in Hx. lia. }
  rewrite <- (take_drop n (reverse (argsort scores))) in Hin.
  apply elem_of_app in Hin as [Hin|Hin]; [done|].
  pose proof (reversed_argsort_descending scores) as Hsorted.
  rewrite <- (take_drop n (reverse (argsort scores))) in Hsorted.
  by apply (StronglySorted_app_1_elem_of _ _ _ _ _ Hsorted Htop Hin).
Qed.

(** X25. The score attached to a recommendation is the inner product of
    the user's cached row with the cached row of the item whose reverse
    entry is the recommended movie id. *)
Theorem scores_are_inner_products (m m' : ImprovedLightGCN) (rmm : gmap Z string)
    (user_idx k : Z) (recs : list recommendation) :
  recommend_for m rmm user_idx k = (inr recs, m') →
  ∃ cu user_emb items,
    cached_users m' = Some cu ∧ tensor_row cu user_idx = inr user_emb ∧
    cached_items m' = Some items ∧
    ∀ r, r ∈ recs →
         ∃ (idx : nat) item,
           rmm !! Z.of_nat idx = Some (movieId r) ∧
           items !! idx = Some item ∧ score r = dot user_emb item.
Proof.
  intros H. apply recommend_for_inr in H as (scores & _ & Hscores & ->).
  unfold user_scores, matmul in Hscores.
  destruct (cached_users m') as [cu|]; [|done].
  destruct (tensor_row cu user_idx) as [e|user_emb] eqn:Hrow; [done|].
  destruct (cached_items m') as [items|]; [|done].
  case_match; [|done]. injection Hscores as <-.
  exists cu, user_emb, items. repeat split; try done.
  intros r Hr. apply list_elem_of_omap in Hr as (idx & _ & Hr).
  apply entry_of_Some in Hr as [Hid Hscore].
  apply list_lookup_fmap_Some in Hscore as (item & Hdot & Hitem).
  by exists idx, item.
Qed.

(** X26. When no two indices share a reverse entry, no movie id is
    recommended twice. *)
Theorem recommendations_distinct (m m' : ImprovedLightGCN) (rmm : gmap Z string)
    (user_idx k : Z) (recs : list recommendation) :
  (∀ i j e, rmm !! i = Some e → rmm !! j = Some e → i = j) →
  recommend_for m rmm user_idx k = (inr recs, m') →
  NoDup (movieId <$> recs).
Proof.
  intros Hinj H. apply recommend_for_inr in H as (scores & _ & _ & ->).
  apply NoDup_fmap_omap.
  - unfold top_indices.
    destruct (slice_to_take k (reverse (argsort scores))) as [n ->].
    eapply sublist_NoDup; [|apply sublist_take].
    rewrite reverse_Permutation, argsort_perm. apply NoDup_seq.
  - intros x y r1 r2 Hx Hy Heq.
    apply entry_of_Some in Hx as [Hx _]. apply entry_of_Some in Hy as [Hy _].
    rewrite Heq in Hx. apply Nat2Z.inj. by eapply Hinj.
Qed.

(** X27. A negative user index counts from the end of the user table: a
    user mapped to [i - n], with [n] the number of rows of the cached user
    table and [0 <= i < n], is served exactly as a user mapped to [i]. *)
Theorem negative_index_wraps (m : ImprovedLightGCN) (rmm : gmap Z string)
    (cu : tensor) (i k : Z) :
  cached_users (ensure_cache m).1 = Some cu →
  0 <= i < Z.of_nat (length cu) →
  recommend_for m rmm (i - Z.of_nat (length cu)) k = recommend_for m rmm i k.
Proof.
  intros Hcu Hi. unfold recommend_for.
  destruct (ensure_cache m) as [m' [e|]]; [done|]. simpl in Hcu.
  unfold user_scores. rewrite Hcu.
  assert (tensor_row cu (i - Z.of_nat (length cu)) = tensor_row cu i) as ->; [|done].
  unfold tensor_row.
  rewrite (proj2 (Z.ltb_lt (i - Z.of_nat (length cu)) 0)) by lia.
  rewrite (proj2 (Z.ltb_ge i 0)) by lia.
  replace (i - Z.of_nat (length cu) + Z.of_nat (length cu)) with i by lia.
  by rewrite !(proj2 (Z.leb_le 0 i)), !(proj2 (Z.ltb_lt i (Z.of_nat (length cu))))
    by lia.
Qed.

End scoring_more.

(** * The further properties on concrete inputs *)

Lemma add_user_on_empty_mapping_witness :
  ManageMapping.add_user "a" 0 empty_tables_files =
    ManageMapping.Run empty_tables_files [] (Some ValueError).
Proof.
  apply (add_user_on_empty_mapping empty_tables_files
           (Pickle.Mappings (Some ∅) (Some ∅) (Some ∅)) "a" 0); reflexivity.
Defined.

Lemma add_bulk_on_empty_mapping_raises_witness :
  ManageMapping.add_bulk ["a"; "b"] 0 empty_tables_files =
    ManageMapping.Run empty_tables_files [] (Some ZeroDivisionError).
Proof.
  apply (add_bulk_on_empty_mapping_raises empty_tables_files
           (Pickle.Mappings (Some ∅) (Some ∅) (Some ∅)) "a" ["b"] 0); reflexivity.
Defined.

Lemma add_user_keeps_max_index_witness :
  ∃ um',
    stored_user_mapping
      (ManageMapping.files (ManageMapping.add_user "new" 9 five_users_files)) = Some um' ∧
    um' !! "new" ≠ None ∧
    ∀ mx, is_max_index five_users mx → is_max_index um' mx.
Proof.
  apply (add_user_keeps_max_index five_users_files five_users_mappings five_users
           "new" 9); [reflexivity..|apply five_users_non_empty].
Defined.

Lemma add_user_then_check_user_witness :
  ∃ um' idx,
    stored_user_mapping
      (ManageMapping.files (ManageMapping.add_user "new" 9 five_users_files)) = Some um' ∧
    um' !! "new" = Some idx ∧
    ManageMapping.check_user "new"
      (ManageMapping.files (ManageMapping.add_user "new" 9 five_users_files)) =
    ManageMapping.Run
      (ManageMapping.files (ManageMapping.add_user "new" 9 five_users_files))
      [Found "new" idx] None.
Proof. apply (add_user_then_check_user five_users_files "new" 9). reflexivity. Defined.

Lemma add_user_touches_one_entry_witness :
  stored_user_mapping
    (ManageMapping.files (ManageMapping.add_user "new" 9 five_users_files))
    ≫= (λ um, um !! "u3") = Some 3.
Proof.
  destruct (add_user_touches_one_entry five_users_files "new" "u3" 9) as [-> _];
    [discriminate|reflexivity].
Defined.

Lemma add_bulk_index_bounds_witness :
  five_users ⊆ <["c" := 2]> (<["b" := 2]> (<["a" := 2]> five_users)) ∧
  ∀ k v, (<["c" := 2]> (<["b" := 2]> (<["a" := 2]> five_users))) !! k = Some v →
         five_users !! k = Some v ∨ 0 <= v < 8.
Proof.
  apply (add_bulk_index_bounds five_users_files five_users_mappings five_users
           (<["c" := 2]> (<["b" := 2]> (<["a" := 2]> five_users)))
           scenario_ids 7 eq_refl eq_refl eq_refl).
Defined.

Lemma generated_users_all_mapped_witness :
  ∃ i, GenerateMapping.build_user_mapping harvested_users !! "u1" = Some i.
Proof.
  destruct (generated_users_all_mapped harvested_users (GenerateMapping.ObjectId "u1"))
    as [H _]; [|exact H].
  unfold harvested_users. apply elem_of_cons. right. apply elem_of_cons. by left.
Defined.

Lemma generated_movies_round_trip_witness :
  ∃ i,
    (GenerateMapping.build_movie_mappings harvested_movies).1 !! "m2" = Some i ∧
    (GenerateMapping.build_movie_mappings harvested_movies).2 !! i = Some "m2".
Proof.
  apply (generated_movies_round_trip harvested_movies (GenerateMapping.StrValue "m2")).
  unfold harvested_movies. apply elem_of_cons. by left.
Defined.

Lemma harvested_strings_distinct :
  NoDup (GenerateMapping.str <$> harvested_users) ∧
  NoDup (GenerateMapping.str <$> harvested_movies).
Proof.
  split; simpl; (apply NoDup_cons; split; [|apply NoDup_singleton]);
    rewrite list_elem_of_singleton; discriminate.
Qed.

Lemma generate_mappings_order_independent_witness :
  GenerateMapping.generate_mappings harvested_users harvested_movies (MkFiles None None) =
  GenerateMapping.generate_mappings harvested_users_reordered harvested_movies_reordered
                                    (MkFiles None None).
Proof.
  apply (generate_mappings_order_independent harvested_users harvested_users_reordered
           harvested_movies harvested_movies_reordered).
  - apply perm_swap.
  - apply perm_swap.
  - apply harvested_strings_distinct.
  - apply harvested_strings_distinct.
Defined.

Lemma successful_load_installs_file_witness :
  ∃ m mp,
    App.model (App.load_model (Some (App.WholeModel retrained_model)) five_users_files
                              demo_state).1 = Some (App.ModelObject m) ∧
    App._cache_valid m = false ∧ App.cached_users m = None ∧ App.cached_items m = None ∧
    mapping_file five_users_files = Some mp ∧
    Pickle.user_mapping mp =
      Some (App.user_mapping
              (App.load_model (Some (App.WholeModel retrained_model)) five_users_files
                              demo_state).1) ∧
    Pickle.movie_mapping mp =
      Some (App.movie_mapping
              (App.load_model (Some (App.WholeModel retrained_model)) five_users_files
                              demo_state).1) ∧
    Pickle.reverse_movie_mapping mp =
      Some (App.reverse_movie_mapping
              (App.load_model (Some (App.WholeModel retrained_model)) five_users_files
                              demo_state).1).
Proof.
  apply (successful_load_installs_file (Some (App.WholeModel retrained_model))
           five_users_files demo_state). reflexivity.
Defined.


Lemma same_index_same_recommendations_witness :
  App.batch_entry (App.get_recommendations (App.Request "known" 2) shared_index_state).1 =
  App.batch_entry (App.get_recommendations (App.Request "guest" 2) shared_index_state).1.
Proof.
  destruct (same_index_same_recommendations shared_index_state "known" "guest" 0 2
              eq_refl eq_refl) as [H _].
  exact H.
Defined.

Lemma propagate_layers_witness :
  length [[[1]]; [[1]]; [[1]]] = 3%nat ∧ head [[[1]]; [[1]]; [[1]]] = Some [[1]].
Proof.
  apply (propagate_layers (T := identity_graph_torch) () 2 [[1]] [[[1]]; [[1]]; [[1]]]).
  reflexivity.
Defined.

Lemma computer_with_graph_shapes_witness :
  length [[1; 0; 0; 0]] = App.num_users graph_model ∧
  length [[1; 0; 0; 0]; [0; 1; 0; 0]] = App.num_items graph_model.
Proof.
  apply (computer_with_graph_shapes (T := identity_graph_torch) graph_model ());
    reflexivity.
Defined.

Lemma checkpoint_reload_serves_witness :
  ∃ recs,
    (App.get_recommendations (App.Request "u0" 5)
       (App.load_model (Some demo_checkpoint) five_users_files App.initial_globals).1).1 =
    inr (App.Response "u0" recs).
Proof.
  apply (checkpoint_reload_serves (T := Z_torch) (App.Config (T := Z_torch) 1 2 4 3 0 0 false)
           (App.StateDict (T := Z_torch) (Some [[1; 0; 0; 0]]) (Some [[1; 0; 0; 0]; [0; 1; 0; 0]]) None)
           five_users_files App.initial_globals _ "u0" 0 5);
    [reflexivity|reflexivity|simpl; lia].
Defined.

Lemma recommendation_count_witness :
  ∃ items,
    App.cached_items cached_demo_model = Some items ∧
    (length [App.Rec "m0" 1%Z] ≤ slice_length (-1) (length items))%nat ∧
    ((∀ idx, (idx < length items)%nat →
             App.truthy (demo_reverse !! Z.of_nat idx) = true) →
     length [App.Rec "m0" 1] = slice_length (-1) (length items)).
Proof.
  apply (recommendation_count demo_model cached_demo_model demo_reverse 0 (-1)).
  reflexivity.
Defined.

Lemma left_out_items_score_no_more_witness :
  ∃ scores,
    App.user_scores cached_demo_model 0 = inr scores ∧
    ∀ r idx x,
      r ∈ [App.Rec "m0" 1] → scores !! idx = Some x →
      idx ∉ App.top_indices scores 1 →
      s_leb x (App.score r) = true.
Proof.
  apply (left_out_items_score_no_more demo_model cached_demo_model demo_reverse 0 1).
  reflexivity.
Defined.

Lemma scores_are_inner_products_witness :
  ∃ cu user_emb items,
    App.cached_users cached_demo_model = Some cu ∧
    App.tensor_row cu 0 = inr user_emb ∧
    App.cached_items cached_demo_model = Some items ∧
    ∀ r, r ∈ [App.Rec "m0" 1; App.Rec "m1" 0] →
         ∃ (idx : nat) item,
           demo_reverse !! Z.of_nat idx = Some (App.movieId r) ∧
           items !! idx = Some item ∧ App.score r = App.dot user_emb item.
Proof.
  apply (scores_are_inner_products demo_model cached_demo_model demo_reverse 0 2).
  reflexivity.
Defined.

Lemma demo_reverse_injective (i j : Z) (e : string) :
  demo_reverse !! i = Some e → demo_reverse !! j = Some e → i = j.
Proof.
  unfold demo_reverse. simpl. rewrite !lookup_insert_Some, !lookup_empty.
  intros [[<- <-]|[_ [[<- <-]|[_ ?]]]] [[<- ?]|[_ [[<- ?]|[_ ?]]]]; done.
Qed.

Lemma recommendations_distinct_witness :
  NoDup (App.movieId <$> [App.Rec "m0" 1; App.Rec "m1" 0]).
Proof.
  apply (recommendations_distinct demo_model cached_demo_model demo_reverse 0 2).
  - apply demo_reverse_injective.
  - reflexivity.
Defined.

Lemma negative_index_wraps_witness :
  App.recommend_for demo_model demo_reverse (0 - 1) 2 =
  App.recommend_for demo_model demo_reverse 0 2.
Proof.
  apply (negative_index_wraps demo_model demo_reverse [[1; 0; 0; 0]] 0 2);
    [reflexivity|simpl; lia].
Defined.

(** X28. When no two movie values print the same string, the two movie
    tables of a freshly generated file are inverse in both directions: an
    identifier is mapped to an index exactly when the reverse table maps
    that index to the identifier. *)
Theorem generated_tables_inverse_both_ways
    (unique_users unique_movies : list GenerateMapping.db_value) (fs : Files) :
  NoDup (GenerateMapping.str <$> unique_movies) →
  ∃ m mm rm,
    mapping_file (GenerateMapping.generate_mappings unique_users unique_movies fs)
      = Some m ∧
    Pickle.movie_mapping m = Some mm ∧
    Pickle.reverse_movie_mapping m = Some rm ∧
    ∀ ext_id idx, mm !! ext_id = Some idx ↔ rm !! idx = Some ext_id.
Proof.
  intros Hnd.
  destruct (generate_mappings_inverse unique_users unique_movies fs)
    as (m & mm & rm & Hfile & Hmm & Hrm & Hinv).
  exists m, mm, rm. repeat split; try done; [apply Hinv|].
  pose proof (build_movie_mappings_converse unique_movies Hnd) as Hconv.
  unfold GenerateMapping.generate_mappings in Hfile.
  destruct (GenerateMapping.build_movie_mappings unique_movies) as [mm' rm'].
  simpl in Hfile. injection Hfile as <-. simpl in Hmm, Hrm.
  injection Hmm as <-. injection Hrm as <-. apply Hconv.
Qed.

Lemma generated_tables_inverse_both_ways_witness :
  ∃ m mm rm,
    mapping_file (GenerateMapping.generate_mappings harvested_users harvested_movies
                                                    (MkFiles None None))
      = Some m ∧
    Pickle.movie_mapping m = Some mm ∧
    Pickle.reverse_movie_mapping m = Some rm ∧
    ∀ ext_id idx, mm !! ext_id = Some idx ↔ rm !! idx = Some ext_id.
Proof.
  apply (generated_tables_inverse_both_ways harvested_users harvested_movies).
  apply harvested_strings_distinct.
Defined.

(** ** Runs of the loading and indexing edge cases *)

(** At startup, a checkpoint dictionary whose configuration the
    constructor refuses leaves [model] unbound. *)
Example startup_with_rejected_config :
  App.startup_event
    (Some (App.RejectedConfigDict (T := Z_torch) TypeError
             (App.StateDict (T := Z_torch) None None None)))
    five_users_files
  = (App.initial_globals, Some TypeError).
Proof. reflexivity. Qed.

(** An object that is not a model stays bound after the failed reload,
    and mapped users are then answered with an error. *)
Example reload_with_other_object :
  App.load_model (Some App.OtherObject) five_users_files demo_state
    = (App.set_model App.NotAModel demo_state, Some AttributeError) ∧
  (App.get_recommendations (App.Request "known" 2)
     (App.set_model App.NotAModel demo_state)).1
    = inl (App.HTTPError 500 (App.ErrorGenerating AttributeError)).
Proof. split; reflexivity. Qed.

(** A mapped index that does not fit in 64 bits is not an [IndexError]. *)
Example recommend_index_beyond_int64 :
  (App.get_recommendations (App.Request "known" 2)
     (App.Globals (Some (App.ModelObject demo_model))
                  (list_to_map [("known", 2 ^ 63)]) ∅ demo_reverse)).1
  = inl (App.HTTPError 500 (App.ErrorGenerating IntegerOverflow)).
Proof. reflexivity. Qed.
